(** * immich_variety_sync: a shallow embedding of [sync.py]

    The script mirrors the assets of some Immich albums into one local
    directory.  Every definition below embeds the function of the same
    name in [sync.py]; the Python built-ins and library calls the script
    relies on ([str] methods, [int], [os], [requests], [random], Pillow)
    are modelled first, each next to a note saying what is kept of it.

    Conventions
    - Python [str] values are ASCII strings; [bytes] are lists of bytes.
    - An exception is a value of [exn]; a computation is a function from
      the state of the world to an outcome and a new world (the state is
      kept when an exception is raised, as in Python).
    - The local store is the single directory [DOWNLOAD_PATH]: a finite
      map from entry names to nodes.  [os.path.join] pairs the directory
      with the entry name. *)

From Stdlib Require Import ZArith QArith Qround Floats String Ascii List Lia Bool.
From stdpp Require Import gmap strings list sorting.

Open Scope Z_scope.

(* ================================================================= *)
(** ** Python strings *)

Module Py.

Definition code (c : ascii) : Z := Z.of_nat (nat_of_ascii c).

(** [str.isspace] on ASCII: space, tab .. carriage return, FS .. US. *)
Definition isspace (c : ascii) : bool :=
  (code c =? 32) || ((9 <=? code c) && (code c <=? 13))
  || ((28 <=? code c) && (code c <=? 31)).

Definition isdigit (c : ascii) : bool := (48 <=? code c) && (code c <=? 57).

Definition isupper (c : ascii) : bool := (65 <=? code c) && (code c <=? 90).

Definition islower (c : ascii) : bool := (97 <=? code c) && (code c <=? 122).

(** [c.isalnum()] for an ASCII character. *)
Definition isalnum (c : ascii) : bool := isdigit c || isupper c || islower c.

Definition lower_char (c : ascii) : ascii :=
  if isupper c then ascii_of_nat (nat_of_ascii c + 32) else c.

(** [s.lower()] *)
Fixpoint lower (s : string) : string :=
  match s with
  | EmptyString => EmptyString
  | String c r => String (lower_char c) (lower r)
  end.

(** ["".join(c for c in s if p(c))] *)
Fixpoint keep (p : ascii -> bool) (s : string) : string :=
  match s with
  | EmptyString => EmptyString
  | String c r => if p c then String c (keep p r) else keep p r
  end.

Fixpoint lstrip_with (p : ascii -> bool) (s : string) : string :=
  match s with
  | EmptyString => EmptyString
  | String c r => if p c then lstrip_with p r else s
  end.

Definition reverse (s : string) : string :=
  string_of_list_ascii (rev (list_ascii_of_string s)).

Definition rstrip_with (p : ascii -> bool) (s : string) : string :=
  reverse (lstrip_with p (reverse s)).

(** [s.strip()] *)
Definition strip (s : string) : string :=
  rstrip_with isspace (lstrip_with isspace s).

(** [s.rstrip(c)] for a one-character argument. *)
Definition rstrip_char (c : ascii) (s : string) : string :=
  rstrip_with (Ascii.eqb c) s.

(** [s.split(sep)] for a one-character separator: never empty. *)
Fixpoint split (sep : ascii) (s : string) : list string :=
  match s with
  | EmptyString => [EmptyString]
  | String c r =>
      if Ascii.eqb c sep then EmptyString :: split sep r
      else match split sep r with
           | h :: t => String c h :: t
           | [] => [String c EmptyString]
           end
  end.

(** [s.startswith(p)] *)
Definition startswith (s p : string) : bool := String.prefix p s.

(** [needle in hay]: substring test. *)
Fixpoint contains (needle hay : string) : bool :=
  String.prefix needle hay
  || match hay with
     | EmptyString => false
     | String _ r => contains needle r
     end.

(** [s.rfind(c)]: index of the last occurrence, [-1] when there is none. *)
Fixpoint rfind_from (c : ascii) (s : string) (i : Z) (last : Z) : Z :=
  match s with
  | EmptyString => last
  | String d r => rfind_from c r (i + 1) (if Ascii.eqb d c then i else last)
  end.

Definition rfind (c : ascii) (s : string) : Z := rfind_from c s 0 (-1).

(** [s[i:j]] for [0 <= i <= j]. *)
Definition slice (s : string) (i j : Z) : string :=
  String.substring (Z.to_nat i) (Z.to_nat (j - i)) s.

Fixpoint all_chars (p : ascii -> bool) (s : string) : bool :=
  match s with
  | EmptyString => true
  | String c r => p c && all_chars p r
  end.

(** [os.path.splitext] (posixpath): the extension starts at the last dot
    of the last path component, leading dots of that component apart. *)
Definition splitext (p : string) : string * string :=
  let sepIndex := rfind "/" p in
  let dotIndex := rfind "." p in
  let n := Z.of_nat (String.length p) in
  if (sepIndex <? dotIndex)
     && negb (all_chars (Ascii.eqb ".") (slice p (sepIndex + 1) dotIndex))
  then (slice p 0 dotIndex, slice p dotIndex n)
  else (p, EmptyString).

Definition digit_value (c : ascii) : option Z :=
  if isdigit c then Some (code c - 48) else None.

(** Digits after the first one; single underscores may separate digits. *)
Fixpoint int_digits (acc : Z) (underscore : bool) (s : string) : option Z :=
  match s with
  | EmptyString => if underscore then None else Some acc
  | String c r =>
      if Ascii.eqb c "_" then
        if underscore then None else int_digits acc true r
      else match digit_value c with
           | Some d => int_digits (acc * 10 + d) false r
           | None => None
           end
  end.

Definition int_unsigned (s : string) : option Z :=
  match s with
  | EmptyString => None
  | String c r =>
      match digit_value c with
      | Some d => int_digits d false r
      | None => None
      end
  end.

(** [int(s)] in base ten; [None] stands for [ValueError]. *)
Definition int (s : string) : option Z :=
  match strip s with
  | String "+" r => int_unsigned r
  | String "-" r => option_map Z.opp (int_unsigned r)
  | r => int_unsigned r
  end.

End Py.

(* ================================================================= *)
(** ** Exceptions and outcomes *)

Inductive exn : Type :=
| ValueError
| ZeroDivisionError
| OverflowError
| IndexError
| FileNotFoundError
| IsADirectoryError
| PermissionError
| ConnectionError
| JSONDecodeError
| PILError (msg : string)
| SystemExit (status : Z).

(** [except Exception] catches every class above but [SystemExit]. *)
Definition is_Exception (e : exn) : bool :=
  match e with
  | SystemExit _ => false
  | _ => true
  end.

Inductive result (A : Type) : Type :=
| Ok (a : A)
| Raise (e : exn).

Arguments Ok {A} a.
Arguments Raise {A} e.

#[export] Instance result_ret : MRet result := fun A a => Ok a.
#[export] Instance result_bind : MBind result := fun A B f r =>
  match r with
  | Ok a => f a
  | Raise e => Raise e
  end.

(* ================================================================= *)
(** ** Python floats (binary64) and the arithmetic the script does on them *)

Module PyFloat.

(** [float(z)], rounded to nearest; exact below [2^53]. *)
Definition of_Z (z : Z) : float :=
  SF2Prim (SpecFloat.binary_normalize 53 1024 z 0 false).

Definition is_zero (x : float) : bool := PrimFloat.eqb x PrimFloat.zero.

Definition is_inf (x : float) : bool :=
  match Prim2SF x with
  | SpecFloat.S754_infinity _ => true
  | _ => false
  end.

(** An [int] operand of a float operation: too large raises. *)
Definition of_int (z : Z) : result float :=
  let x := of_Z z in
  if is_inf x then Raise OverflowError else Ok x.

(** [a / b] on two [int]s.  Operands below [2^53] convert exactly, so
    the quotient is the correctly rounded one, as in Python; beyond,
    Python rounds the exact quotient once where this rounds the operands
    first.  Image and target sizes are far below. *)
Definition truediv (a b : Z) : result float :=
  if b =? 0 then Raise ZeroDivisionError
  else x ← of_int a; y ← of_int b; Ok (PrimFloat.div x y).

(** [a / y] with [a] an [int] and [y] a [float]. *)
Definition int_div_float (a : Z) (y : float) : result float :=
  x ← of_int a;
  if is_zero y then Raise ZeroDivisionError else Ok (PrimFloat.div x y).

(** [a * y] with [a] an [int] and [y] a [float]. *)
Definition int_mul_float (a : Z) (y : float) : result float :=
  x ← of_int a; Ok (PrimFloat.mul x y).

(** [x > y] *)
Definition gt (x y : float) : bool := PrimFloat.ltb y x.

(** [int(x)]: truncation towards zero. *)
Definition to_int (x : float) : result Z :=
  match Prim2SF x with
  | SpecFloat.S754_zero _ => Ok 0
  | SpecFloat.S754_infinity _ => Raise OverflowError
  | SpecFloat.S754_nan => Raise ValueError
  | SpecFloat.S754_finite s m e =>
      let a := if 0 <=? e then Z.pos m * 2 ^ e else Z.pos m / 2 ^ (- e) in
      Ok (if s then - a else a)
  end.

(** [round(x)]: to the nearest integer, ties to the even one. *)
Definition round (x : float) : result Z :=
  match Prim2SF x with
  | SpecFloat.S754_zero _ => Ok 0
  | SpecFloat.S754_infinity _ => Raise OverflowError
  | SpecFloat.S754_nan => Raise ValueError
  | SpecFloat.S754_finite s m e =>
      let a :=
        if 0 <=? e then Z.pos m * 2 ^ e
        else
          let d := 2 ^ (- e) in
          let q := Z.pos m / d in
          let r := Z.pos m mod d in
          if 2 * r <? d then q
          else if d <? 2 * r then q + 1
          else if Z.even q then q else q + 1 in
      Ok (if s then - a else a)
  end.

End PyFloat.

(* ================================================================= *)
(** ** Data *)

Definition bytes : Type := list Byte.byte.

(** An asset record of the album listing: [asset['id']],
    [asset.get('originalFileName', 'img')], [asset.get('isFavorite')]. *)
Record asset : Type := {
  id : string;
  originalFileName : option string;
  isFavorite : bool
}.

(** The [assets] dict: insertion-ordered, keyed by asset id. *)
Definition dict : Type := list (string * asset).

Fixpoint dict_set (k : string) (v : asset) (d : dict) : dict :=
  match d with
  | [] => [(k, v)]
  | (k', v') :: r =>
      if String.eqb k' k then (k, v) :: r else (k', v') :: dict_set k v r
  end.

Definition keys (d : dict) : list string := map fst d.
Definition values (d : dict) : list asset := map snd d.

(** A reply of [requests.get]: a response with its status, text, raw
    content and, when the body is a JSON object with an ["assets"] array
    of records, that array; or a transport failure. *)
Inductive reply : Type :=
| Response (status_code : Z) (text : string) (content : bytes)
           (assets_json : option (list asset))
| TransportError.

(** The remote side: URL and [x-api-key] header to reply. *)
Definition network : Type := string -> string -> reply.

Inductive kind : Type := RegularFile | Directory.

(** An entry of the download directory.  [st_mtime] counts clock ticks:
    the script only compares modification times.  [data] is the content,
    whose length is [st_size].  [locked] stands for an entry the process
    may neither unlink nor re-stamp (immutable, or owned by someone else
    in a sticky directory). *)
Record node : Type := {
  node_kind : kind;
  st_mtime : Z;
  data : bytes;
  locked : bool
}.

Definition st_size (n : node) : Z := Z.of_nat (length (data n)).

Definition path : Type := string * string.
Definition os_path_join (dir name : string) : path := (dir, name).
Definition os_path_basename (p : path) : string := snd p.

(** What the script prints, one constructor per [print] call. *)
Inductive log_line : Type :=
| LogFetchingAlbum (album : string)
| LogFoundItems (n : nat) (album : string)
| LogAlbumStatus (album : string) (status_code : Z) (text : string)
| LogAlbumError (album : string) (e : exn)
| LogInvalidTargetSize (target_size_str : string)
| LogResizeOriginal (filename : string) (w h : Z) (orientation : option Z)
                    (target_size_str : string)
| LogResizeError (e : exn)
| LogDownloading (filename : string)
| LogDownloadFailed (asset_id : string) (status_code : Z)
| LogDownloadError (asset_id : string) (e : exn)
| LogMaxImagesExceeded (name : string)
| LogMaxSizeExceeded (total_size : Z) (name : string)
| LogErrorDeleting (p : path) (e : exn)
| LogCleanupComplete (deleted_count : Z)
| LogStartingSync
| LogRemovingOrphan (f : string)
| LogSkippingOrphanRemoval
| LogRandomlySelecting (k : Z) (n : nat)
| LogSyncComplete (downloaded_count : Z)
| LogSleeping (seconds : Z)
| LogApiKeyNotSet.

(** The state the script acts on: the download directory, the clock read
    by [os.utime] and by file creation, the generator behind
    [random.sample], standard output, and what settles the order in
    which [os.listdir] enumerates the directory (any order can occur). *)
Record world : Type := {
  fs : gmap string node;
  clock : Z;
  rng : list nat;
  stdout : list log_line;
  listing_seed : list nat
}.

Definition set_fs (f : gmap string node) (w : world) : world :=
  {| fs := f; clock := clock w; rng := rng w; stdout := stdout w;
     listing_seed := listing_seed w |}.

(* ================================================================= *)
(** ** The monad of the script: state and exceptions *)

Definition M (A : Type) : Type := world -> result A * world.

#[export] Instance M_ret : MRet M := fun A a w => (Ok a, w).
#[export] Instance M_bind : MBind M := fun A B f m w =>
  match m w with
  | (Ok a, w') => f a w'
  | (Raise e, w') => (Raise e, w')
  end.

Definition raise {A : Type} (e : exn) : M A := fun w => (Raise e, w).

Definition lift {A : Type} (r : result A) : M A := fun w => (r, w).

(** [try: body  except <classes>: handler], [classes] telling the caught ones. *)
Definition try_except {A : Type} (body : M A) (classes : exn -> bool)
    (handler : exn -> M A) : M A := fun w =>
  match body w with
  | (Ok a, w') => (Ok a, w')
  | (Raise e, w') => if classes e then handler e w' else (Raise e, w')
  end.

Definition print (l : log_line) : M unit := fun w =>
  (Ok tt, {| fs := fs w; clock := clock w; rng := rng w;
             stdout := stdout w ++ [l]; listing_seed := listing_seed w |}).


(** Drawing [k] distinct elements from a pool: each draw takes the next
    number of the seed and removes the element it designates. *)
Fixpoint draw {A : Type} (pool : list A) (k : nat) (seed : list nat)
    : list A * list nat :=
  match k with
  | O => ([], seed)
  | S k' =>
      let r := hd O seed in
      let seed' := tl seed in
      let i := (r mod length pool)%nat in
      match pool !! i with
      | Some x =>
          let '(xs, seed'') := draw (delete i pool) k' seed' in
          (x :: xs, seed'')
      | None => ([], seed')
      end
  end.

(* ----------------------------------------------------------------- *)
(** *** [os] on the download directory *)

(** The names of the directory in the order [os.listdir] gives them: the
    seed of the world draws them one after the other, so every order of
    the names is the listing of some world. *)
Definition listing (w : world) : list string :=
  let names := elements (dom (fs w)) in
  fst (draw names (length names) (listing_seed w)).

Definition os_listdir (dir : string) : M (list string) := fun w =>
  (Ok (listing w), w).

Definition os_path_exists (p : path) : M bool := fun w =>
  (Ok (bool_decide (is_Some (fs w !! snd p))), w).

Definition os_path_isfile (p : path) : M bool := fun w =>
  (Ok match fs w !! snd p with
      | Some n => match node_kind n with RegularFile => true | Directory => false end
      | None => false
      end, w).

Definition os_stat (p : path) : M node := fun w =>
  match fs w !! snd p with
  | Some n => (Ok n, w)
  | None => (Raise FileNotFoundError, w)
  end.

Definition os_remove (p : path) : M unit := fun w =>
  match fs w !! snd p with
  | None => (Raise FileNotFoundError, w)
  | Some n =>
      match node_kind n with
      | Directory => (Raise IsADirectoryError, w)
      | RegularFile =>
          if locked n then (Raise PermissionError, w)
          else (Ok tt, set_fs (delete (snd p) (fs w)) w)
      end
  end.

(** [os.utime(path, None)]: stamp with the current time. *)
Definition os_utime (p : path) : M unit := fun w =>
  match fs w !! snd p with
  | None => (Raise FileNotFoundError, w)
  | Some n =>
      if locked n then (Raise PermissionError, w)
      else (Ok tt,
            set_fs (<[snd p := {| node_kind := node_kind n; st_mtime := clock w;
                                  data := data n; locked := locked n |}]> (fs w)) w)
  end.

(** [with open(path, 'wb') as f: f.write(content)] *)
Definition write_file (p : path) (content : bytes) : M unit := fun w =>
  let fresh := {| node_kind := RegularFile; st_mtime := clock w;
                  data := content; locked := false |} in
  match fs w !! snd p with
  | None => (Ok tt, set_fs (<[snd p := fresh]> (fs w)) w)
  | Some n =>
      match node_kind n with
      | Directory => (Raise IsADirectoryError, w)
      | RegularFile =>
          if locked n then (Raise PermissionError, w)
          else (Ok tt, set_fs (<[snd p := fresh]> (fs w)) w)
      end
  end.

(* ----------------------------------------------------------------- *)
(** *** [requests] and [random] *)

Definition requests_get (net : network) (url api_key : string) : M reply :=
  match net url api_key with
  | TransportError => raise ConnectionError
  | r => mret r
  end.

(** [r.json()['assets']] *)
Definition json_assets (r : reply) : M (list asset) :=
  match r with
  | Response _ _ _ (Some items) => mret items
  | _ => raise JSONDecodeError
  end.

(** [random.sample(population, k)] *)
Definition random_sample {A : Type} (population : list A) (k : Z)
    : M (list A) := fun w =>
  if (k <? 0) || (Z.of_nat (length population) <? k) then (Raise ValueError, w)
  else
    let '(xs, seed') := draw population (Z.to_nat k) (rng w) in
    (Ok xs, {| fs := fs w; clock := clock w; rng := seed'; stdout := stdout w;
               listing_seed := listing_seed w |}).

(* ================================================================= *)
(** ** Pillow, as far as the script relies on it

    Images are opaque; each operation either fails with a message (an
    exception of class [Exception]) or returns an image.  The laws are
    the documented behaviour of the library: [Image.open] refuses images
    without a positive size, [resize] refuses a requested size with a
    side below one pixel (it answers a copy when asked for the size the
    image already has), and the sizes of the results. *)

Inductive resampling : Type := LANCZOS | BICUBIC.

Definition box : Type := (float * float * float * float)%type.

(** The integer box Pillow's [crop] works on: [map(int, map(round, box))]. *)
Definition rounded_box (b : box) : result (Z * Z * Z * Z) :=
  let '(l, t, r, bm) := b in
  x0 ← PyFloat.round l; y0 ← PyFloat.round t;
  x1 ← PyFloat.round r; y1 ← PyFloat.round bm;
  Ok (x0, y0, x1, y1).

Class PIL : Type := {
  image : Type;
  Image_open : bytes -> string + image;
  img_size : image -> Z * Z;
  img_format : image -> option string;
  exif_orientation : image -> option Z;
  exif_transpose : image -> string + image;
  resize : image -> Z * Z -> resampling -> string + image;
  gaussian_blur : image -> Z -> string + image;
  crop : image -> box -> string + image;
  paste : image -> image -> Z * Z -> string + image;
  save : image -> string -> Z -> string + bytes;
  open_size : forall b i, Image_open b = inr i ->
    0 < fst (img_size i) /\ 0 < snd (img_size i);
  exif_transpose_size : forall i j, exif_transpose i = inr j ->
    img_size j = img_size i \/ img_size j = (snd (img_size i), fst (img_size i));
  resize_rejects : forall i w h f, w < 1 \/ h < 1 -> img_size i <> (w, h) ->
    exists msg, resize i (w, h) f = inl msg;
  resize_size : forall i s f j, resize i s f = inr j -> img_size j = s;
  gaussian_blur_size : forall i r j, gaussian_blur i r = inr j ->
    img_size j = img_size i;
  crop_size : forall i b j x0 y0 x1 y1, crop i b = inr j ->
    rounded_box b = Ok (x0, y0, x1, y1) -> img_size j = (x1 - x0, y1 - y0);
  paste_size : forall bg fg at_ j, paste bg fg at_ = inr j ->
    img_size j = img_size bg
}.

Definition width `{PIL} (i : image) : Z := fst (img_size i).
Definition height `{PIL} (i : image) : Z := snd (img_size i).

(** A Pillow call inside the script. *)
Definition pil {A : Type} (r : string + A) : M A :=
  match r with
  | inl msg => raise (PILError msg)
  | inr a => mret a
  end.

(* ================================================================= *)
(** ** Configuration: the module-level constants of [sync.py] *)

Record config : Type := {
  IMMICH_URL : string;
  API_KEY : string;
  ALBUM_IDS : list string;
  ALBUMS_FAVORITES : bool;
  DOWNLOAD_PATH : string;
  SYNC_INTERVAL : Z;
  RANDOM_SELECT : Z;
  MAX_IMAGES : Z;
  (** a [float]; its exact value.  Scaling it by [1024] three times is
      exact in binary64, and Python compares an [int] with a [float]
      exactly, so rationals compute what the script computes. *)
  MAX_LOCAL_GB : Q;
  TARGET_SIZE : string
}.

Definition nonempty (s : string) : bool :=
  match s with
  | EmptyString => false
  | _ => true
  end.

Definition status_of (r : reply) : Z :=
  match r with
  | Response c _ _ _ => c
  | TransportError => 0
  end.

Definition text_of (r : reply) : string :=
  match r with
  | Response _ t _ _ => t
  | TransportError => EmptyString
  end.

Definition content_of (r : reply) : bytes :=
  match r with
  | Response _ _ c _ => c
  | TransportError => []
  end.

(* ================================================================= *)
(** ** [get_assets] *)

(** The body of [for album in ALBUM_IDS]. *)
Definition fetch_album (cfg : config) (net : network) (album : string)
    (assets : dict) (has_error : bool) : M (dict * bool) :=
  try_except
    (print (LogFetchingAlbum album);;
     r ← requests_get net (IMMICH_URL cfg +:+ "/api/albums/" +:+ album)
           (API_KEY cfg);
     if status_of r =? 200 then
       items ← json_assets r;
       print (LogFoundItems (length items) album);;
       mret (foldl (fun d item => dict_set (id item) item d) assets items,
             has_error)
     else
       print (LogAlbumStatus album (status_of r) (text_of r));;
       mret (assets, true))
    is_Exception
    (fun e => print (LogAlbumError album e);; mret (assets, true)).

Fixpoint fetch_albums (cfg : config) (net : network) (albums : list string)
    (assets : dict) (has_error : bool) : M (dict * bool) :=
  match albums with
  | [] => mret (assets, has_error)
  | album :: rest =>
      '(assets', has_error') ← fetch_album cfg net album assets has_error;
      fetch_albums cfg net rest assets' has_error'
  end.

Definition get_assets (cfg : config) (net : network) : M (dict * bool) :=
  fetch_albums cfg net (ALBUM_IDS cfg) [] false.

(* ================================================================= *)
(** ** [get_filename] *)

Definition sanitized (c : ascii) : bool :=
  Py.isalnum c || Ascii.eqb c " " || Ascii.eqb c "-" || Ascii.eqb c "_".

Definition get_filename (a : asset) : string :=
  let asset_id := id a in
  let original_name := default "img"%string (originalFileName a) in
  let '(base, ext) := Py.splitext original_name in
  let base := Py.strip (Py.keep sanitized base) in
  base +:+ "-" +:+ asset_id +:+ ext.

(* ================================================================= *)
(** ** [enforce_limits] *)

(** An element of [files]: [{'path': .., 'mtime': .., 'size': ..}]. *)
Record entry : Type := {
  e_path : path;
  e_mtime : Z;
  e_size : Z
}.

(** [files.sort(key=lambda x: x['mtime'])]: the stable sort. *)
Fixpoint insert_by_mtime (x : entry) (l : list entry) : list entry :=
  match l with
  | [] => [x]
  | y :: r =>
      if e_mtime x <=? e_mtime y then x :: l else y :: insert_by_mtime x r
  end.

Fixpoint sort_by_mtime (l : list entry) : list entry :=
  match l with
  | [] => []
  | x :: r => insert_by_mtime x (sort_by_mtime r)
  end.

Definition max_bytes (cfg : config) : Q :=
  MAX_LOCAL_GB cfg * 1024 * 1024 * 1024.

(** The loop gathering the file stats, over the directory listing. *)
Fixpoint gather (target_dir : string) (protected_filenames : gset string)
    (listing : list string) (files : list entry) (total_size : Z)
    : M (list entry * Z) :=
  match listing with
  | [] => mret (files, total_size)
  | f :: rest =>
      let p := os_path_join target_dir f in
      isfile ← os_path_isfile p;
      if isfile && negb (Py.startswith f ".") then
        if bool_decide (f ∈ protected_filenames) then
          gather target_dir protected_filenames rest files total_size
        else
          stat ← os_stat p;
          gather target_dir protected_filenames rest
            (files ++ [{| e_path := p; e_mtime := st_mtime stat;
                          e_size := st_size stat |}])
            (total_size + st_size stat)
      else gather target_dir protected_filenames rest files total_size
  end.

(** One removal of either loop: the [try] block around [os.remove]. *)
Definition remove_entry (to_delete : entry) (total_size deleted_count : Z)
    : M (Z * Z) :=
  try_except
    (os_remove (e_path to_delete);;
     mret (total_size - e_size to_delete, deleted_count + 1))
    is_Exception
    (fun e => print (LogErrorDeleting (e_path to_delete) e);;
              mret (total_size, deleted_count)).

(** [while MAX_IMAGES > 0 and len(files) > MAX_IMAGES] *)
Fixpoint count_pass (cfg : config) (files : list entry)
    (total_size deleted_count : Z) : M (list entry * Z * Z) :=
  if (0 <? MAX_IMAGES cfg) && (MAX_IMAGES cfg <? Z.of_nat (length files)) then
    match files with
    | [] => raise IndexError
    | to_delete :: rest =>
        print (LogMaxImagesExceeded (os_path_basename (e_path to_delete)));;
        '(total_size', deleted_count') ←
          remove_entry to_delete total_size deleted_count;
        count_pass cfg rest total_size' deleted_count'
    end
  else mret (files, total_size, deleted_count).

(** [while MAX_LOCAL_GB > 0 and total_size > max_bytes and files] *)
Fixpoint size_pass (cfg : config) (files : list entry)
    (total_size deleted_count : Z) : M (list entry * Z * Z) :=
  match files with
  | to_delete :: rest =>
      if negb (Qle_bool (MAX_LOCAL_GB cfg) 0)
         && negb (Qle_bool (inject_Z total_size) (max_bytes cfg)) then
        print (LogMaxSizeExceeded total_size
                 (os_path_basename (e_path to_delete)));;
        '(total_size', deleted_count') ←
          remove_entry to_delete total_size deleted_count;
        size_pass cfg rest total_size' deleted_count'
      else mret (files, total_size, deleted_count)
  | [] => mret (files, total_size, deleted_count)
  end.

Definition enforce_limits (cfg : config) (target_dir : string)
    (protected_filenames : gset string) : M unit :=
  if (MAX_IMAGES cfg <=? 0) && Qle_bool (MAX_LOCAL_GB cfg) 0 then mret tt
  else
    listing ← os_listdir target_dir;
    '(files, total_size) ← gather target_dir protected_filenames listing [] 0;
    let files := sort_by_mtime files in
    '(files, total_size, deleted_count) ← count_pass cfg files total_size 0;
    '(files, total_size, deleted_count) ←
      size_pass cfg files total_size deleted_count;
    if 0 <? deleted_count then print (LogCleanupComplete deleted_count)
    else mret tt.

(* ================================================================= *)
(** ** The part of the script that goes through Pillow *)

Section Script.

Context {pillow : PIL}.

(** The second [try] block of [resize_and_pad]. *)
Definition letterbox (image_content : bytes) (target_size_str : string)
    (filename : string) (target_w target_h : Z) : M bytes :=
  img ← pil (Image_open image_content);
  let original_size := img_size img in
  let orientation := exif_orientation img in
  let shown :=
    match orientation with
    | Some o => if negb (o =? 0) && negb (o =? 1) then Some o else None
    | None => None
    end in
  print (LogResizeOriginal filename (fst original_size) (snd original_size)
           shown target_size_str);;
  img ← pil (exif_transpose img);
  target_ratio ← lift (PyFloat.truediv target_w target_h);
  img_ratio ← lift (PyFloat.truediv (width img) (height img));
  '(new_w, new_h) ←
    (if PyFloat.gt img_ratio target_ratio then
       new_h ← lift (x ← PyFloat.int_div_float target_w img_ratio;
                     PyFloat.to_int x);
       mret (target_w, new_h)
     else
       new_w ← lift (x ← PyFloat.int_mul_float target_h img_ratio;
                     PyFloat.to_int x);
       mret (new_w, target_h));
  resized_img ← pil (resize img (new_w, new_h) LANCZOS);
  '(bg_w, bg_h) ←
    (if PyFloat.gt img_ratio target_ratio then
       bg_w ← lift (x ← PyFloat.int_mul_float target_h img_ratio;
                    PyFloat.to_int x);
       mret (bg_w, target_h)
     else
       bg_h ← lift (x ← PyFloat.int_div_float target_w img_ratio;
                    PyFloat.to_int x);
       mret (target_w, bg_h));
  bg_img ← pil (resize img (bg_w, bg_h) BICUBIC);
  bg_img ← pil (gaussian_blur bg_img 20);
  left ← lift (PyFloat.truediv (bg_w - target_w) 2);
  top ← lift (PyFloat.truediv (bg_h - target_h) 2);
  right ← lift (PyFloat.truediv (bg_w + target_w) 2);
  bottom ← lift (PyFloat.truediv (bg_h + target_h) 2);
  bg_img ← pil (crop bg_img (left, top, right, bottom));
  let paste_x := (target_w - new_w) / 2 in
  let paste_y := (target_h - new_h) / 2 in
  bg_img ← pil (paste bg_img resized_img (paste_x, paste_y));
  let fmt :=
    match img_format img with
    | Some f => if nonempty f then f else "JPEG"%string
    | None => "JPEG"%string
    end in
  pil (save bg_img fmt 95).

(** The first [try] block: [None] when its [except ValueError] ran. *)
Definition parse_target_size (target_size_str : string) : M (option (Z * Z)) :=
  try_except
    (match Py.split "x" (Py.lower target_size_str) with
     | [w_str; h_str] =>
         match Py.int w_str with
         | Some target_w =>
             match Py.int h_str with
             | Some target_h => mret (Some (target_w, target_h))
             | None => raise ValueError
             end
         | None => raise ValueError
         end
     | _ => raise ValueError
     end)
    (fun e => match e with ValueError => true | _ => false end)
    (fun _ => print (LogInvalidTargetSize target_size_str);; mret None).

Definition resize_and_pad (image_content : bytes) (target_size_str : string)
    (filename : string) : M bytes :=
  parsed ← parse_target_size target_size_str;
  match parsed with
  | None => mret image_content
  | Some (target_w, target_h) =>
      try_except
        (letterbox image_content target_size_str filename target_w target_h)
        is_Exception
        (fun e => print (LogResizeError e);; mret image_content)
  end.

(* ----------------------------------------------------------------- *)
(** *** [download_asset] *)

Definition download_asset (cfg : config) (net : network) (a : asset)
    (target_dir : string) : M bool :=
  let filename := get_filename a in
  let p := os_path_join target_dir filename in
  present ← os_path_exists p;
  if (present : bool) then
    os_utime p;;
    mret false
  else
    print (LogDownloading filename);;
    try_except
      (r ← requests_get net
             (IMMICH_URL cfg +:+ "/api/assets/" +:+ id a +:+ "/original")
             (API_KEY cfg);
       if status_of r =? 200 then
         let content := content_of r in
         content ←
           (if nonempty (TARGET_SIZE cfg)
            then resize_and_pad content (TARGET_SIZE cfg) filename
            else mret content);
         write_file p content;;
         mret true
       else
         print (LogDownloadFailed (id a) (status_of r));;
         mret false)
      is_Exception
      (fun e => print (LogDownloadError (id a) e);; mret false).

(* ----------------------------------------------------------------- *)
(** *** [sync_loop] *)

(** The orphan loop: [for f in local_files]. *)
Fixpoint purge_orphans (cfg : config) (valid_asset_ids : list string)
    (local_files : list string) : M unit :=
  match local_files with
  | [] => mret tt
  | f :: rest =>
      (if Py.startswith f "." then mret tt
       else
         let is_valid := existsb (fun aid => Py.contains aid f) valid_asset_ids in
         if negb is_valid then
           print (LogRemovingOrphan f);;
           try_except (os_remove (os_path_join (DOWNLOAD_PATH cfg) f))
             (fun _ => true) (fun _ => mret tt)
         else mret tt);;
      purge_orphans cfg valid_asset_ids rest
  end.

(** The protected set built from the favourites. *)
Definition protected_of (cfg : config) (assets : dict) : gset string :=
  if ALBUMS_FAVORITES cfg
  then list_to_set (map get_filename (filter (fun a => isFavorite a = true) (values assets)))
  else ∅.

Definition favorites_of (cfg : config) (assets : dict) : list asset :=
  if ALBUMS_FAVORITES cfg
  then filter (fun a => isFavorite a = true) (values assets)
  else [].

Definition others_of (cfg : config) (assets : dict) : list asset :=
  if ALBUMS_FAVORITES cfg
  then filter (fun a => isFavorite a = false) (values assets)
  else values assets.

(** Step 1, "Select Assets to Download". *)
Definition select_assets (cfg : config) (assets : dict) : M (list asset) :=
  let favorites := favorites_of cfg assets in
  let others := others_of cfg assets in
  let selection := favorites in
  if 0 <? RANDOM_SELECT cfg then
    if RANDOM_SELECT cfg <? Z.of_nat (length others) then
      print (LogRandomlySelecting (RANDOM_SELECT cfg) (length others));;
      sampled ← random_sample others (RANDOM_SELECT cfg);
      mret (selection ++ sampled)
    else mret (selection ++ others)
  else mret (selection ++ others).

(** Step 2, "Download": [for asset in selection]. *)
Fixpoint download_all (cfg : config) (net : network) (selection : list asset)
    (downloaded_count : Z) : M Z :=
  match selection with
  | [] => mret downloaded_count
  | a :: rest =>
      downloaded ← download_asset cfg net a (DOWNLOAD_PATH cfg);
      download_all cfg net rest
        (if (downloaded : bool) then downloaded_count + 1 else downloaded_count)
  end.

(** Steps 0 to 2 of one turn of the loop: fetch, orphan removal,
    selection and downloads.  Answers the download count and the
    protected set handed to step 3. *)
Definition sync_fetch_and_download (cfg : config) (net : network)
    : M (Z * gset string) :=
  print LogStartingSync;;
  '(assets, has_error) ← get_assets cfg net;
  let valid_asset_ids := keys assets in
  let protected_filenames := protected_of cfg assets in
  local_files ← os_listdir (DOWNLOAD_PATH cfg);
  (if negb has_error then purge_orphans cfg valid_asset_ids local_files
   else print LogSkippingOrphanRemoval);;
  selection ← select_assets cfg assets;
  downloaded_count ← download_all cfg net selection 0;
  mret (downloaded_count, protected_filenames).

(** One turn of [while True], up to the test of [once]. *)
Definition sync_cycle (cfg : config) (net : network) : M Z :=
  '(downloaded_count, protected_filenames) ← sync_fetch_and_download cfg net;
  enforce_limits cfg (DOWNLOAD_PATH cfg) protected_filenames;;
  print (LogSyncComplete downloaded_count);;
  mret downloaded_count.



(* ----------------------------------------------------------------- *)
(** *** Start-up: the module-level statements and [__main__] *)

(** [float(s)] is left to the caller: [None] stands for [ValueError]. *)
Variable py_float : string -> option Q.

Definition getenv (environ : gmap string string) (key default : string)
    : string :=
  match environ !! key with
  | Some v => v
  | None => default
  end.

(** [int(os.getenv(key, default))] with an [int] default. *)
Definition int_setting (environ : gmap string string) (key : string)
    (default : Z) : result Z :=
  match environ !! key with
  | Some v =>
      match Py.int v with
      | Some z => Ok z
      | None => Raise ValueError
      end
  | None => Ok default
  end.

Definition float_setting (environ : gmap string string) (key : string)
    (default : Q) : result Q :=
  match environ !! key with
  | Some v =>
      match py_float v with
      | Some q => Ok q
      | None => Raise ValueError
      end
  | None => Ok default
  end.

Definition load_config (environ : gmap string string) : result config :=
  let immich_url :=
    Py.rstrip_char "/" (getenv environ "IMMICH_URL" "http://192.168.1.100:2283") in
  let api_key := getenv environ "API_KEY" "" in
  let album_ids :=
    map Py.strip
      (filter (fun x => nonempty (Py.strip x) = true)
         (Py.split "," (getenv environ "ALBUM_IDS" ""))) in
  let albums_favorites :=
    String.eqb (Py.lower (getenv environ "ALBUMS_FAVORITES" "True")) "true" in
  let download_path := getenv environ "DOWNLOAD_PATH" "./wallpapers" in
  sync_interval ← int_setting environ "SYNC_INTERVAL" 600;
  random_select ← int_setting environ "RANDOM_SELECT" 0;
  max_images ← int_setting environ "MAX_IMAGES" 0;
  max_local_gb ← float_setting environ "MAX_LOCAL_GB" 0;
  let target_size := getenv environ "TARGET_SIZE" "" in
  Ok {| IMMICH_URL := immich_url; API_KEY := api_key; ALBUM_IDS := album_ids;
        ALBUMS_FAVORITES := albums_favorites; DOWNLOAD_PATH := download_path;
        SYNC_INTERVAL := sync_interval; RANDOM_SELECT := random_select;
        MAX_IMAGES := max_images; MAX_LOCAL_GB := max_local_gb;
        TARGET_SIZE := target_size |}.



End Script.

(* ================================================================= *)
(** * Properties *)

(** ** Reasoning about computations *)

Lemma bind_unfold {A B : Type} (m : M A) (f : A -> M B) (w : world) :
  (m ≫= f) w =
  match m w with
  | (Ok a, w') => f a w'
  | (Raise e, w') => (Raise e, w')
  end.
Proof. reflexivity. Qed.

Lemma ret_unfold {A : Type} (a : A) (w : world) : (mret a : M A) w = (Ok a, w).
Proof. reflexivity. Qed.

(** ** The directory listing *)

(** Drawing as many elements as the pool holds gives them all. *)
Lemma draw_all_perm {A : Type} (n : nat) : forall (l : list A) seed,
  length l = n -> fst (draw l n seed) ≡ₚ l.
Proof.
  induction n as [|n IH]; intros l seed Hlen.
  - destruct l; [done|discriminate].
  - cbn [draw].
    assert (Hlt : (hd O seed mod length l < length l)%nat).
    { apply Nat.mod_upper_bound. lia. }
    destruct (lookup_lt_is_Some_2 l _ Hlt) as [x Hx]. rewrite Hx.
    specialize (IH (delete (hd O seed mod length l)%nat l) (tl seed)).
    destruct (draw (delete (hd O seed mod length l)%nat l) n (tl seed))
      as [xs seed'] eqn:E.
    cbn [fst] in *. rewrite IH.
    + symmetry. by apply delete_Permutation.
    + rewrite length_delete by (by eexists). lia.
Qed.

Lemma listing_perm w : listing w ≡ₚ elements (dom (fs w)).
Proof. unfold listing. by apply draw_all_perm. Qed.

Lemma listing_NoDup w : NoDup (listing w).
Proof. rewrite listing_perm. apply NoDup_elements. Qed.

Lemma elem_of_listing w name : name ∈ listing w <-> is_Some (fs w !! name).
Proof. by rewrite listing_perm, elem_of_elements, elem_of_dom. Qed.

(** ** Retention: what [enforce_limits] lists, and what it removes *)

Definition is_regular (n : node) : bool :=
  match node_kind n with
  | RegularFile => true
  | Directory => false
  end.

(** The entries the enforcer considers: regular, not hidden, not protected. *)
Definition is_candidate (protected : gset string) (name : string) (n : node)
    : bool :=
  is_regular n && negb (Py.startswith name ".")
  && negb (bool_decide (name ∈ protected)).

Definition entry_of (dir name : string) (n : node) : entry :=
  {| e_path := os_path_join dir name; e_mtime := st_mtime n;
     e_size := st_size n |}.

Fixpoint candidates (dir : string) (protected : gset string)
    (f : gmap string node) (listing : list string) : list entry :=
  match listing with
  | [] => []
  | name :: rest =>
      match f !! name with
      | Some n =>
          if is_candidate protected name n
          then entry_of dir name n :: candidates dir protected f rest
          else candidates dir protected f rest
      | None => candidates dir protected f rest
      end
  end.

Definition sum_sizes (l : list entry) : Z :=
  foldr (fun e acc => e_size e + acc) 0 l.

Lemma sum_sizes_app l1 l2 : sum_sizes (l1 ++ l2) = sum_sizes l1 + sum_sizes l2.
Proof. induction l1 as [|e l1 IH]; simpl; lia. Qed.

Lemma gather_spec dir protected listing : forall files total w,
  gather dir protected listing files total w =
  (Ok (files ++ candidates dir protected (fs w) listing,
       total + sum_sizes (candidates dir protected (fs w) listing)), w).
Proof.
  induction listing as [|f rest IH]; intros files total w; simpl.
  - rewrite app_nil_r, Z.add_0_r. reflexivity.
  - rewrite bind_unfold. unfold os_path_isfile, is_candidate, is_regular. simpl.
    destruct (fs w !! f) as [n|] eqn:Hf; simpl.
    + destruct (node_kind n); simpl.
      * destruct (Py.startswith f "."); simpl.
        -- apply IH.
        -- destruct (bool_decide (f ∈ protected)); simpl.
           ++ apply IH.
           ++ rewrite bind_unfold. unfold os_stat. simpl. rewrite Hf.
              rewrite IH. rewrite <- app_assoc. simpl.
              unfold entry_of. do 3 f_equal. lia.
      * apply IH.
    + apply IH.
Qed.

(** [os.remove] succeeds exactly on an unlocked regular file. *)
Definition removable (f : gmap string node) (name : string) : bool :=
  match f !! name with
  | Some n => is_regular n && negb (locked n)
  | None => false
  end.

Lemma os_remove_ok p w :
  removable (fs w) (snd p) = true ->
  os_remove p w = (Ok tt, set_fs (delete (snd p) (fs w)) w).
Proof.
  unfold removable, os_remove, is_regular.
  destruct (fs w !! snd p) as [n|]; [|discriminate].
  destruct (node_kind n), (locked n); simpl; intros; congruence.
Qed.

Lemma os_remove_fail p w :
  removable (fs w) (snd p) = false ->
  exists e, is_Exception e = true /\ os_remove p w = (Raise e, w).
Proof.
  unfold removable, os_remove, is_regular.
  destruct (fs w !! snd p) as [n|].
  - destruct (node_kind n), (locked n); simpl; intros ?; try discriminate;
      (eexists; split; [|reflexivity]; reflexivity).
  - intros _. eexists; split; [|reflexivity]; reflexivity.
Qed.

Definition entry_name (e : entry) : string := snd (e_path e).

(** What a run of removals over [l] leaves of the directory and of the
    running total: a removal that fails changes neither. *)
Fixpoint evict (f : gmap string node) (l : list entry) (total : Z)
    : gmap string node * Z :=
  match l with
  | [] => (f, total)
  | e :: r =>
      if removable f (entry_name e)
      then evict (delete (entry_name e) f) r (total - e_size e)
      else evict f r total
  end.

Lemma evict_app f l1 l2 total :
  evict f (l1 ++ l2) total =
  evict (fst (evict f l1 total)) l2 (snd (evict f l1 total)).
Proof.
  revert f total. induction l1 as [|e l1 IH]; intros f total; simpl; [done|].
  destruct (removable f (entry_name e)); apply IH.
Qed.

Lemma evict_snoc f l e total :
  evict f (l ++ [e]) total =
  let '(f', total') := evict f l total in
  if removable f' (entry_name e)
  then (delete (entry_name e) f', total' - e_size e)
  else (f', total').
Proof.
  rewrite evict_app. destruct (evict f l total) as [f' total']. simpl.
  by destruct (removable f' (entry_name e)).
Qed.

Lemma remove_entry_spec e total deleted w :
  exists w' deleted',
    remove_entry e total deleted w =
      (Ok (snd (evict (fs w) [e] total), deleted'), w')
    /\ fs w' = fst (evict (fs w) [e] total)
    /\ clock w' = clock w /\ rng w' = rng w.
Proof.
  unfold remove_entry, try_except. rewrite bind_unfold. simpl.
  destruct (removable (fs w) (entry_name e)) eqn:Hr.
  - rewrite (os_remove_ok (e_path e) w Hr). simpl. by eexists _, _.
  - destruct (os_remove_fail (e_path e) w Hr) as (x & Hx & ->).
    rewrite Hx. simpl. by eexists _, _.
Qed.

(** How many entries the count loop pops from a list of [n] entries. *)
Definition count_stop (cfg : config) (n : nat) : nat :=
  if (0 <? MAX_IMAGES cfg) && (MAX_IMAGES cfg <? Z.of_nat n)
  then (n - Z.to_nat (MAX_IMAGES cfg))%nat
  else O.

Lemma count_stop_le cfg n : (count_stop cfg n <= n)%nat.
Proof. unfold count_stop. case_match; lia. Qed.

Lemma count_pass_spec cfg files : forall total deleted w,
  exists w' deleted',
    count_pass cfg files total deleted w =
      (Ok (drop (count_stop cfg (length files)) files,
           snd (evict (fs w) (take (count_stop cfg (length files)) files) total),
           deleted'), w')
    /\ fs w' = fst (evict (fs w) (take (count_stop cfg (length files)) files) total)
    /\ clock w' = clock w /\ rng w' = rng w.
Proof.
  induction files as [|e rest IH]; intros total deleted w.
  - unfold count_stop. cbn [count_pass length].
    destruct ((0 <? MAX_IMAGES cfg) && (MAX_IMAGES cfg <? Z.of_nat 0)) eqn:Hc.
    + apply andb_true_iff in Hc as [H1 H2].
      apply Z.ltb_lt in H1. apply Z.ltb_lt in H2. lia.
    + by eexists _, _.
  - unfold count_stop. cbn [count_pass].
    destruct ((0 <? MAX_IMAGES cfg)
              && (MAX_IMAGES cfg <? Z.of_nat (length (e :: rest)))) eqn:Hc.
    + apply andb_true_iff in Hc as [H1 H2].
      apply Z.ltb_lt in H1. apply Z.ltb_lt in H2.
      cbn [length] in *.
      replace (S (length rest) - Z.to_nat (MAX_IMAGES cfg))%nat
        with (S (count_stop cfg (length rest))).
      2:{ unfold count_stop.
          destruct ((0 <? MAX_IMAGES cfg)
                    && (MAX_IMAGES cfg <? Z.of_nat (length rest))) eqn:Hc'.
          - apply andb_true_iff in Hc' as [_ H3]. lia.
          - apply andb_false_iff in Hc' as [H3|H3]; lia. }
      rewrite bind_unfold. cbn [print]. rewrite bind_unfold.
      set (w1 := {| fs := fs w; clock := clock w; rng := rng w;
                    stdout := stdout w ++ _;
                    listing_seed := listing_seed w |}).
      destruct (remove_entry_spec e total deleted w1)
        as (w2 & d2 & -> & Hfs & Hck & Hrng).
      destruct (IH (snd (evict (fs w1) [e] total)) d2 w2)
        as (w3 & d3 & -> & Hfs3 & Hck3 & Hrng3).
      exists w3, d3. cbn [take drop].
      change (e :: take (count_stop cfg (length rest)) rest)
        with ([e] ++ take (count_stop cfg (length rest)) rest).
      rewrite evict_app. rewrite Hfs3, Hfs.
      subst w1; cbn [fs clock rng] in *. repeat split; try done; congruence.
    + by eexists _, _.
Qed.

(** The guard of the size loop, the test on [files] apart. *)
Definition over_budget (cfg : config) (total : Z) : bool :=
  negb (Qle_bool (MAX_LOCAL_GB cfg) 0)
  && negb (Qle_bool (inject_Z total) (max_bytes cfg)).

Lemma size_pass_spec cfg files : forall total deleted w,
  exists (j : nat) w' deleted',
    (j <= length files)%nat
    /\ size_pass cfg files total deleted w =
         (Ok (drop j files, snd (evict (fs w) (take j files) total), deleted'),
          w')
    /\ fs w' = fst (evict (fs w) (take j files) total)
    /\ clock w' = clock w /\ rng w' = rng w
    /\ (forall i : nat, (i < j)%nat ->
          over_budget cfg (snd (evict (fs w) (take i files) total)) = true)
    /\ (j = length files
        \/ over_budget cfg (snd (evict (fs w) (take j files) total)) = false).
Proof.
  induction files as [|e rest IH]; intros total deleted w.
  - exists O, w, deleted. cbn. repeat split; try done; try lia; by left.
  - cbn [size_pass]. fold (over_budget cfg total).
    destruct (over_budget cfg total) eqn:Hob.
    + rewrite bind_unfold. cbn [print]. rewrite bind_unfold.
      set (w1 := {| fs := fs w; clock := clock w; rng := rng w;
                    stdout := stdout w ++ _;
                    listing_seed := listing_seed w |}).
      destruct (remove_entry_spec e total deleted w1)
        as (w2 & d2 & -> & Hfs & Hck & Hrng).
      destruct (IH (snd (evict (fs w1) [e] total)) d2 w2)
        as (j & w3 & d3 & Hj & -> & Hfs3 & Hck3 & Hrng3 & Hbefore & Hstop).
      subst w1; cbn [fs clock rng] in *.
      rewrite Hfs in Hfs3, Hbefore, Hstop.
      assert (Hcons : forall i : nat,
                evict (fs w) (take (S i) (e :: rest)) total =
                evict (fst (evict (fs w) [e] total)) (take i rest)
                  (snd (evict (fs w) [e] total))).
      { intros i. cbn [take].
        change (e :: take i rest) with ([e] ++ take i rest).
        apply evict_app. }
      exists (S j), w3, d3. cbn [length drop].
      rewrite Hcons, Hfs3. repeat split; try done; try lia; try congruence.
      * intros [|i] Hi; [done|]. rewrite Hcons. apply Hbefore. lia.
      * destruct Hstop as [->|Hstop]; [by left|by right].
    + exists O, w, deleted. cbn. repeat split; try done; try lia; by right.
Qed.

(** The total size of the entries the enforcer considers. *)
Definition unprotected_total (dir : string) (protected : gset string)
    (f : gmap string node) : Z :=
  sum_sizes (candidates dir protected f (elements (dom f))).

Definition retention_enabled (cfg : config) : bool :=
  negb ((MAX_IMAGES cfg <=? 0) && Qle_bool (MAX_LOCAL_GB cfg) 0).

(** [enforce_limits] as a whole: it attempts a prefix of the candidates
    sorted by age; the prefix covers the pops of the count loop, each
    later attempt is made over budget, and the loop ends within the
    budget or out of candidates. *)
Lemma enforce_limits_spec cfg dir protected w :
  retention_enabled cfg = true ->
  let cands := candidates dir protected (fs w) (listing w) in
  let sorted := sort_by_mtime cands in
  let state (i : nat) := evict (fs w) (take i sorted) (sum_sizes cands) in
  exists (j : nat) w',
    (count_stop cfg (length sorted) <= j <= length sorted)%nat
    /\ enforce_limits cfg dir protected w = (Ok tt, w')
    /\ fs w' = fst (state j)
    /\ clock w' = clock w /\ rng w' = rng w
    /\ (forall i : nat, (count_stop cfg (length sorted) <= i < j)%nat ->
          over_budget cfg (snd (state i)) = true)
    /\ (j = length sorted \/ over_budget cfg (snd (state j)) = false).
Proof.
  intros Hen cands sorted state. unfold enforce_limits.
  unfold retention_enabled in Hen. apply negb_true_iff in Hen. rewrite Hen.
  rewrite bind_unfold. cbn [os_listdir]. rewrite bind_unfold.
  rewrite gather_spec. cbn [app]. fold cands.
  rewrite Z.add_0_l. fold sorted.
  rewrite bind_unfold.
  destruct (count_pass_spec cfg sorted (sum_sizes cands) 0 w)
    as (w1 & d1 & -> & Hfs1 & Hck1 & Hrng1).
  set (c := count_stop cfg (length sorted)) in *.
  rewrite bind_unfold.
  destruct (size_pass_spec cfg (drop c sorted)
              (snd (evict (fs w) (take c sorted) (sum_sizes cands))) d1 w1)
    as (j & w2 & d2 & Hj & -> & Hfs2 & Hck2 & Hrng2 & Hbefore & Hstop).
  assert (Hc : (c <= length sorted)%nat).
  { apply count_stop_le. }
  assert (Hsplit : forall i : nat,
            state (c + i)%nat =
            evict (fs w1) (take i (drop c sorted))
              (snd (evict (fs w) (take c sorted) (sum_sizes cands)))).
  { intros i. unfold state. rewrite Hfs1.
    rewrite <- evict_app. f_equal.
    rewrite <- (take_drop c sorted) at 1.
    rewrite take_app_add'; [done|]. rewrite length_take. lia. }
  rewrite length_drop in Hj.
  assert (Hfinal : exists w3,
    (if 0 <? d2 then print (LogCleanupComplete d2) else mret tt) w2 = (Ok tt, w3)
    /\ fs w3 = fs w2 /\ clock w3 = clock w2 /\ rng w3 = rng w2).
  { destruct (0 <? d2); by eexists. }
  destruct Hfinal as (w3 & -> & Hfs3 & Hck3 & Hrng3).
  exists (c + j)%nat, w3. rewrite Hsplit.
  repeat split; try lia; try congruence.
  - intros i Hi. replace i with (c + (i - c))%nat by lia.
    rewrite Hsplit. apply Hbefore. lia.
  - rewrite length_drop in Hstop. destruct Hstop as [->|Hstop].
    + left. lia.
    + right. done.
Qed.

Lemma enforce_limits_disabled cfg dir protected w :
  retention_enabled cfg = false ->
  enforce_limits cfg dir protected w = (Ok tt, w).
Proof.
  unfold retention_enabled, enforce_limits. intros H.
  apply negb_false_iff in H. by rewrite H.
Qed.

(** An entry of [files] describes a candidate of the directory [f]. *)
Definition listed (dir : string) (protected : gset string)
    (f : gmap string node) (e : entry) : Prop :=
  exists n, f !! entry_name e = Some n
            /\ is_candidate protected (entry_name e) n = true
            /\ e = entry_of dir (entry_name e) n.

Lemma candidates_listed dir protected f l :
  Forall (listed dir protected f) (candidates dir protected f l).
Proof.
  induction l as [|name l IH]; simpl; [constructor|].
  destruct (f !! name) as [n|] eqn:Hn; [|done].
  destruct (is_candidate protected name n) eqn:Hc; [|done].
  constructor; [|done]. by exists n.
Qed.

Lemma candidates_names_in dir protected f l e :
  e ∈ candidates dir protected f l -> entry_name e ∈ l.
Proof.
  induction l as [|name l IH]; simpl; [by inversion 1|].
  destruct (f !! name) as [n|]; [|by right; auto].
  destruct (is_candidate protected name n); [|by right; auto].
  intros [->|H]%elem_of_cons; [by left|by right; auto].
Qed.

Lemma candidates_names_NoDup dir protected f l :
  NoDup l -> NoDup (map entry_name (candidates dir protected f l)).
Proof.
  induction 1 as [|name l Hnot Hnd IH]; simpl; [constructor|].
  destruct (f !! name) as [n|]; [|done].
  destruct (is_candidate protected name n); [|done].
  simpl. constructor; [|done].
  intros (e & He & Hin)%(list_elem_of_fmap_1 entry_name).
  apply candidates_names_in in Hin. unfold entry_of, entry_name in He.
  simpl in He. by subst.
Qed.


Lemma sum_sizes_candidates_perm dir protected f l1 l2 :
  l1 ≡ₚ l2 ->
  sum_sizes (candidates dir protected f l1)
  = sum_sizes (candidates dir protected f l2).
Proof.
  induction 1 as [|x l1 l2 _ IH|x y l|l1 l2 l3 _ IH1 _ IH2]; simpl.
  - done.
  - destruct (f !! x) as [n|]; [|done].
    destruct (is_candidate protected x n); simpl; lia.
  - destruct (f !! x) as [n|], (f !! y) as [m|]; try done.
    + destruct (is_candidate protected x n), (is_candidate protected y m);
        simpl; lia.
  - lia.
Qed.

Lemma candidates_perm dir protected f l1 l2 :
  l1 ≡ₚ l2 -> candidates dir protected f l1 ≡ₚ candidates dir protected f l2.
Proof.
  induction 1 as [|x l1 l2 _ IH|x y l|l1 l2 l3 _ IH1 _ IH2]; simpl.
  - done.
  - destruct (f !! x) as [n|]; [|done].
    destruct (is_candidate protected x n); [by constructor|done].
  - destruct (f !! x) as [n|], (f !! y) as [m|]; try done.
    destruct (is_candidate protected x n), (is_candidate protected y m);
      try done. apply Permutation_swap.
  - by etrans.
Qed.

Lemma candidates_delete_notin dir protected f name l :
  name ∉ l ->
  candidates dir protected (delete name f) l = candidates dir protected f l.
Proof.
  induction l as [|x l IH]; [done|]. intros Hnot.
  apply not_elem_of_cons in Hnot as [Hne Hnot]. simpl.
  rewrite lookup_delete_ne by done. rewrite IH by done. done.
Qed.

Lemma unprotected_total_delete dir protected f name n :
  f !! name = Some n ->
  unprotected_total dir protected (delete name f)
  = unprotected_total dir protected f
    - (if is_candidate protected name n then st_size n else 0).
Proof.
  intros Hn. unfold unprotected_total.
  assert (Hperm : elements (dom f) ≡ₚ name :: elements (dom (delete name f))).
  { rewrite <- (insert_delete_id f name n) at 1 by done.
    rewrite dom_insert_L. apply elements_union_singleton.
    rewrite dom_delete_L. intros [_ Hx]%elem_of_difference.
    apply Hx. by apply elem_of_singleton. }
  rewrite (sum_sizes_candidates_perm _ _ _ _ _ Hperm). simpl. rewrite Hn.
  assert (Hnot : name ∉ elements (dom (delete name f))).
  { rewrite elem_of_elements, dom_delete_L. intros [_ Hx]%elem_of_difference.
    apply Hx. by apply elem_of_singleton. }
  rewrite (candidates_delete_notin _ _ _ _ _ Hnot).
  destruct (is_candidate protected name n); simpl; lia.
Qed.

Lemma listed_delete dir protected f name e :
  listed dir protected f e -> entry_name e <> name ->
  listed dir protected (delete name f) e.
Proof.
  intros (n & Hn & Hc & He) Hne. exists n.
  by rewrite lookup_delete_ne.
Qed.

Lemma evict_lookup_notin name l : forall f total,
  name ∉ map entry_name l -> fst (evict f l total) !! name = f !! name.
Proof.
  induction l as [|e l IH]; intros f total Hnot; [done|]. simpl in *.
  apply not_elem_of_cons in Hnot as [Hne Hnot].
  destruct (removable f (entry_name e)).
  - rewrite IH by done. by rewrite lookup_delete_ne.
  - by apply IH.
Qed.

Lemma evict_lookup_Some name n l : forall f total,
  fst (evict f l total) !! name = Some n -> f !! name = Some n.
Proof.
  induction l as [|e l IH]; intros f total H; [done|]. simpl in H.
  destruct (removable f (entry_name e)).
  - apply IH in H. apply lookup_delete_Some in H. tauto.
  - by apply IH in H.
Qed.

(** The running total follows the directory. *)
Lemma evict_total_tracks dir protected l : forall f total,
  Forall (listed dir protected f) l -> NoDup (map entry_name l) ->
  snd (evict f l total) - unprotected_total dir protected (fst (evict f l total))
  = total - unprotected_total dir protected f.
Proof.
  induction l as [|e l IH]; intros f total Hl Hnd; [done|].
  apply Forall_cons in Hl as [He Hl]. simpl in Hnd.
  apply NoDup_cons in Hnd as [Hnot Hnd]. simpl.
  destruct (removable f (entry_name e)) eqn:Hr.
  - rewrite IH; [|idtac|done].
    + destruct He as (n & Hn & Hc & He).
      rewrite (unprotected_total_delete _ _ _ _ _ Hn), Hc.
      rewrite He at 1. unfold entry_of. simpl. lia.
    + apply Forall_forall. intros x Hx.
      apply listed_delete; [by eapply Forall_forall in Hl|].
      intros Heq. apply Hnot. rewrite <- Heq. by apply list_elem_of_fmap_2.
  - by apply IH.
Qed.

(** Removals that all succeed delete every entry of the list. *)
Lemma evict_all_removable dir protected l : forall f total,
  Forall (listed dir protected f) l -> NoDup (map entry_name l) ->
  Forall (fun e => forall n, f !! entry_name e = Some n -> locked n = false) l ->
  (forall name, name ∈ map entry_name l -> fst (evict f l total) !! name = None)
  /\ snd (evict f l total) = total - sum_sizes l.
Proof.
  induction l as [|e l IH]; intros f total Hl Hnd Hun.
  - split; [by inversion 1|simpl; lia].
  - apply Forall_cons in Hl as [He Hl]. simpl in Hnd.
    apply NoDup_cons in Hnd as [Hnot Hnd].
    apply Forall_cons in Hun as [Hue Hun]. simpl.
    destruct He as (n & Hn & Hc & He).
    assert (Hr : removable f (entry_name e) = true).
    { unfold removable. rewrite Hn. rewrite (Hue n Hn).
      unfold is_candidate in Hc.
      apply andb_true_iff in Hc as [Hc _]. apply andb_true_iff in Hc as [Hc _].
      by rewrite Hc. }
    rewrite Hr.
    destruct (IH (delete (entry_name e) f) (total - e_size e)) as [IH1 IH2].
    + apply Forall_forall. intros x Hx.
      apply listed_delete; [by eapply Forall_forall in Hl|].
      intros Heq. apply Hnot. rewrite <- Heq. by apply list_elem_of_fmap_2.
    + done.
    + apply Forall_forall. intros x Hx m Hm.
      apply lookup_delete_Some in Hm as [_ Hm].
      eapply Forall_forall in Hun; eauto.
    + split; [|lia].
      intros name [->|Hin]%elem_of_cons.
      * rewrite evict_lookup_notin by done. apply lookup_delete_eq.
      * by apply IH1.
Qed.

(** ** The sort *)


Lemma insert_by_mtime_perm x l : insert_by_mtime x l ≡ₚ x :: l.
Proof.
  induction l as [|y l IH]; simpl; [done|].
  destruct (e_mtime x <=? e_mtime y); [done|].
  rewrite IH. apply Permutation_swap.
Qed.

Lemma sort_by_mtime_perm l : sort_by_mtime l ≡ₚ l.
Proof.
  induction l as [|x l IH]; simpl; [done|].
  by rewrite insert_by_mtime_perm, IH.
Qed.

Lemma sort_by_mtime_length l : length (sort_by_mtime l) = length l.
Proof. apply Permutation_length, sort_by_mtime_perm. Qed.




(** ** What the sorted candidates are *)

Section Retention.

Variables (dir : string) (protected : gset string) (f : gmap string node).

(** A listing of the directory, in any order. *)
Variable l : list string.
Hypothesis l_perm : l ≡ₚ elements (dom f).

Let cands := candidates dir protected f l.
Let sorted := sort_by_mtime cands.

Lemma sorted_listed (i : nat) : Forall (listed dir protected f) (take i sorted).
Proof.
  apply Forall_take. unfold sorted. rewrite sort_by_mtime_perm.
  apply candidates_listed.
Qed.

Lemma sorted_names_NoDup (i : nat) : NoDup (map entry_name (take i sorted)).
Proof.
  change (NoDup (entry_name <$> take i sorted)). rewrite fmap_take.
  eapply sublist_NoDup; [|apply sublist_take].
  unfold sorted. rewrite sort_by_mtime_perm.
  apply candidates_names_NoDup. rewrite l_perm. apply NoDup_elements.
Qed.


Lemma listed_total : sum_sizes cands = unprotected_total dir protected f.
Proof. apply sum_sizes_candidates_perm, l_perm. Qed.

(** The running total of the enforcer is the size on disk at each step. *)
Lemma running_total_on_disk (i : nat) :
  snd (evict f (take i sorted) (sum_sizes cands))
  = unprotected_total dir protected
      (fst (evict f (take i sorted) (sum_sizes cands))).
Proof.
  pose proof (evict_total_tracks dir protected (take i sorted) f
                (sum_sizes cands) (sorted_listed i) (sorted_names_NoDup i)) as H.
  rewrite listed_total in *. lia.
Qed.

(** No protected name is among the candidates. *)
Lemma protected_not_listed name (i : nat) :
  name ∈ protected -> name ∉ map entry_name (take i sorted).
Proof.
  intros Hp (e & -> & He)%(list_elem_of_fmap_1 entry_name).
  pose proof (sorted_listed i) as Hl.
  eapply Forall_forall in Hl as (n & _ & Hc & _); [|exact He].
  unfold is_candidate in Hc. apply andb_true_iff in Hc as [_ Hc].
  apply negb_true_iff, bool_decide_eq_false in Hc. done.
Qed.

End Retention.

(** ** C5 *)

(** C5 (protection absolute): whatever the directory holds, whatever the
    protected set and the limits are, an entry whose name is in the
    protected set is the same after [enforce_limits] as before it. *)
Theorem protected_never_removed cfg dir protected w name :
  name ∈ protected ->
  fs (snd (enforce_limits cfg dir protected w)) !! name = fs w !! name.
Proof.
  intros Hp. destruct (retention_enabled cfg) eqn:Hen.
  - destruct (enforce_limits_spec cfg dir protected w Hen)
      as (j & w' & _ & -> & Hfs & _).
    simpl. rewrite Hfs. apply evict_lookup_notin.
    by apply protected_not_listed.
  - by rewrite enforce_limits_disabled.
Qed.

(** ** C6 and C7 *)

Lemma over_budget_true cfg total :
  over_budget cfg total = true <->
  (0 < MAX_LOCAL_GB cfg /\ max_bytes cfg < inject_Z total)%Q.
Proof.
  unfold over_budget. rewrite andb_true_iff, !negb_true_iff.
  split.
  - intros [H1 H2]. split.
    + apply Qnot_le_lt. intros H. apply Qle_bool_iff in H. congruence.
    + apply Qnot_le_lt. intros H. apply Qle_bool_iff in H. congruence.
  - intros [H1 H2]. split.
    + apply not_true_is_false. intros H. apply Qle_bool_iff in H.
      by apply (Qlt_not_le _ _ H1).
    + apply not_true_is_false. intros H. apply Qle_bool_iff in H.
      by apply (Qlt_not_le _ _ H2).
Qed.

Lemma over_budget_false cfg total :
  (0 < MAX_LOCAL_GB cfg)%Q -> over_budget cfg total = false ->
  (inject_Z total <= max_bytes cfg)%Q.
Proof.
  intros Hgb H. apply Qnot_lt_le. intros Hlt.
  assert (over_budget cfg total = true) by (by apply over_budget_true).
  congruence.
Qed.







(** Within both limits the enforcer leaves the directory as it is. *)
Definition limits_respected (cfg : config) (dir : string)
    (protected : gset string) (f : gmap string node) : Prop :=
  (0 < MAX_IMAGES cfg ->
   Z.of_nat (length (candidates dir protected f (elements (dom f))))
   <= MAX_IMAGES cfg)
  /\ ((0 < MAX_LOCAL_GB cfg)%Q ->
      (inject_Z (unprotected_total dir protected f) <= max_bytes cfg)%Q).

Lemma enforce_limits_within_limits cfg dir protected w :
  limits_respected cfg dir protected (fs w) ->
  exists w', enforce_limits cfg dir protected w = (Ok tt, w')
             /\ fs w' = fs w /\ clock w' = clock w /\ rng w' = rng w.
Proof.
  intros [Hcount Hsize]. destruct (retention_enabled cfg) eqn:Hen.
  - destruct (enforce_limits_spec cfg dir protected w Hen)
      as (j & w' & Hj & Hrun & Hfs & Hck & Hrng & Hbefore & _).
    rewrite sort_by_mtime_length in Hj, Hbefore.
    rewrite (Permutation_length
               (candidates_perm dir protected (fs w) _ _ (listing_perm w)))
      in Hj, Hbefore.
    rewrite (listed_total dir protected (fs w) (listing w) (listing_perm w))
      in Hfs, Hbefore.
    assert (Hc : count_stop cfg
                   (length (candidates dir protected (fs w)
                              (elements (dom (fs w))))) = O).
    { unfold count_stop. case_match eqn:E; [|done].
      apply andb_true_iff in E as [E1 E2].
      apply Z.ltb_lt in E1. apply Z.ltb_lt in E2.
      specialize (Hcount E1). lia. }
    rewrite Hc in Hj, Hbefore.
    assert (j = O) as ->.
    { destruct j as [|j]; [done|].
      assert (Hob : over_budget cfg (unprotected_total dir protected (fs w))
                    = true).
      { apply (Hbefore O). lia. }
      apply over_budget_true in Hob as [Hgb Hob].
      specialize (Hsize Hgb).
      exfalso. by apply (Qlt_not_le _ _ Hob). }
    exists w'. by rewrite Hfs.
  - exists w. by rewrite enforce_limits_disabled.
Qed.

(** ** The orphan loop *)

Section Purge.

(** What the loop treats as an orphan: not hidden, no valid id inside. *)
Definition orphan (valid_asset_ids : list string) (f : string) : bool :=
  negb (Py.startswith f ".")
  && negb (existsb (fun aid => Py.contains aid f) valid_asset_ids).

Lemma elem_of_cons_ne (name f : string) (rest : list string) :
  name <> f -> name ∈ f :: rest <-> name ∈ rest.
Proof.
  intros Hne. rewrite elem_of_cons. split; [|by right].
  intros [?|?]; [congruence|done].
Qed.

Lemma removable_delete_ne f name other :
  name <> other -> removable (delete other f) name = removable f name.
Proof. intros H. unfold removable. by rewrite lookup_delete_ne. Qed.

Lemma purge_orphans_spec cfg ids listing : forall w,
  exists w' lines,
    purge_orphans cfg ids listing w = (Ok tt, w')
    /\ clock w' = clock w /\ rng w' = rng w
    /\ stdout w' = stdout w ++ lines
    /\ Forall (fun l => exists f, l = LogRemovingOrphan f /\ orphan ids f = true)
         lines
    /\ forall name,
         fs w' !! name =
         if orphan ids name && bool_decide (name ∈ listing)
            && removable (fs w) name
         then None else fs w !! name.
Proof.
  induction listing as [|f rest IH]; intros w.
  - exists w, []. simpl. rewrite app_nil_r. repeat split; try done.
    intros name. by rewrite andb_false_r.
  - cbn [purge_orphans]. rewrite bind_unfold.
    unfold orphan in *.
    destruct (Py.startswith f ".") eqn:Hhid; cbn [negb andb].
    { rewrite ret_unfold.
      destruct (IH w) as (w' & lines & -> & Hck & Hrng & Hout & Hlines & Hfs).
      exists w', lines. repeat split; try done.
      intros name. rewrite Hfs.
      destruct (decide (name = f)) as [->|Hne].
      - by rewrite Hhid.
      - by rewrite (bool_decide_ext _ _ (elem_of_cons_ne name f rest Hne)). }
    destruct (existsb (fun aid => Py.contains aid f) ids) eqn:Hvalid;
      cbn [negb].
    { rewrite ret_unfold.
      destruct (IH w) as (w' & lines & -> & Hck & Hrng & Hout & Hlines & Hfs).
      exists w', lines. repeat split; try done.
      intros name. rewrite Hfs.
      destruct (decide (name = f)) as [->|Hne].
      - by rewrite Hhid, Hvalid.
      - by rewrite (bool_decide_ext _ _ (elem_of_cons_ne name f rest Hne)). }
    rewrite bind_unfold. cbn [print]. unfold try_except.
    set (w1 := {| fs := fs w; clock := clock w; rng := rng w;
                  stdout := stdout w ++ [LogRemovingOrphan f];
                listing_seed := listing_seed w |}).
    assert (Hline : exists g, LogRemovingOrphan f = LogRemovingOrphan g
                              /\ negb (Py.startswith g ".")
                                 && negb (existsb (fun aid => Py.contains aid g) ids)
                                 = true).
    { exists f. by rewrite Hhid, Hvalid. }
    destruct (removable (fs w) f) eqn:Hr.
    + rewrite (os_remove_ok (os_path_join (DOWNLOAD_PATH cfg) f) w1 Hr).
      cbn [os_path_join snd].
      destruct (IH (set_fs (delete f (fs w1)) w1))
        as (w' & lines & -> & Hck & Hrng & Hout & Hlines & Hfs).
      exists w', (LogRemovingOrphan f :: lines).
      split; [done|]. split; [done|]. split; [done|].
      split; [by rewrite Hout; simpl; rewrite <- app_assoc|].
      split; [by constructor|].
      intros name. rewrite Hfs. cbn [fs set_fs w1 os_path_join snd].
      destruct (decide (name = f)) as [->|Hne].
      * rewrite lookup_delete_eq.
        rewrite (bool_decide_eq_true_2 (f ∈ f :: rest)) by (by left).
        rewrite Hhid, Hvalid, Hr. cbn [negb andb]. by case_match.
      * rewrite removable_delete_ne, lookup_delete_ne by done.
        by rewrite (bool_decide_ext _ _ (elem_of_cons_ne name f rest Hne)).
    + destruct (os_remove_fail (os_path_join (DOWNLOAD_PATH cfg) f) w1 Hr)
        as (x & _ & ->).
      rewrite ret_unfold.
      destruct (IH w1) as (w' & lines & -> & Hck & Hrng & Hout & Hlines & Hfs).
      exists w', (LogRemovingOrphan f :: lines).
      split; [done|]. split; [done|]. split; [done|].
      split; [by rewrite Hout; simpl; rewrite <- app_assoc|].
      split; [by constructor|].
      intros name. rewrite Hfs. cbn [fs w1].
      destruct (decide (name = f)) as [->|Hne].
      * rewrite Hr. by rewrite !andb_false_r.
      * by rewrite (bool_decide_ext _ _ (elem_of_cons_ne name f rest Hne)).
Qed.

(** C10 (hidden files and the orphan loop): whatever the valid ids and
    the listing are, an entry whose name starts with a dot is the same
    after the orphan loop as before it, and the loop announces no
    removal of it. *)
Theorem hidden_files_survive_purge cfg ids listing w name :
  Py.startswith name "." = true ->
  exists w' lines,
    purge_orphans cfg ids listing w = (Ok tt, w')
    /\ fs w' !! name = fs w !! name
    /\ stdout w' = stdout w ++ lines
    /\ LogRemovingOrphan name ∉ lines.
Proof.
  intros Hhid.
  destruct (purge_orphans_spec cfg ids listing w)
    as (w' & lines & Hrun & _ & _ & Hout & Hlines & Hfs).
  exists w', lines. repeat split; try done.
  - rewrite Hfs. unfold orphan. by rewrite Hhid.
  - intros Hin. eapply Forall_forall in Hlines as (g & Heq & Horph); [|exact Hin].
    injection Heq as <-. unfold orphan in Horph. by rewrite Hhid in Horph.
Qed.

End Purge.

(** ** Computations that only print *)

(** [w'] differs from [w] by printed lines at most. *)
Definition only_printed (w w' : world) : Prop :=
  fs w' = fs w /\ clock w' = clock w /\ rng w' = rng w
  /\ listing_seed w' = listing_seed w
  /\ exists lines, stdout w' = stdout w ++ lines.

Lemma only_printed_refl w : only_printed w w.
Proof. repeat split. exists []. by rewrite app_nil_r. Qed.

Lemma only_printed_trans w1 w2 w3 :
  only_printed w1 w2 -> only_printed w2 w3 -> only_printed w1 w3.
Proof.
  intros (Ha & Hb & Hc & Hd & l1 & Hl1) (Ha' & Hb' & Hc' & Hd' & l2 & Hl2).
  repeat split; try congruence.
  exists (l1 ++ l2). by rewrite Hl2, Hl1, app_assoc.
Qed.

(** A relation between the world before and the world after holds of
    every run of a computation. *)
Definition preserves {A : Type} (R : world -> world -> Prop) (m : M A) : Prop :=
  forall w, R w (snd (m w)).

Section Preserves.

Variable R : world -> world -> Prop.
Hypothesis R_refl : forall w, R w w.
Hypothesis R_trans : forall w1 w2 w3, R w1 w2 -> R w2 w3 -> R w1 w3.

Lemma preserves_ret {A : Type} (a : A) : preserves R (mret a).
Proof. intros w. apply R_refl. Qed.

Lemma preserves_raise {A : Type} (e : exn) : preserves R (raise e : M A).
Proof. intros w. apply R_refl. Qed.

Lemma preserves_lift {A : Type} (r : result A) : preserves R (lift r).
Proof. intros w. apply R_refl. Qed.

Lemma preserves_pil {A : Type} (r : string + A) : preserves R (pil r).
Proof. destruct r; intros w; apply R_refl. Qed.

Lemma preserves_bind {A B : Type} (m : M A) (f : A -> M B) :
  preserves R m -> (forall a, preserves R (f a)) -> preserves R (m ≫= f).
Proof.
  intros Hm Hf w. rewrite bind_unfold. specialize (Hm w).
  destruct (m w) as [[a|e] w1]; simpl in *; [|done].
  eapply R_trans; [exact Hm|apply Hf].
Qed.

Lemma preserves_try_except {A : Type} (body : M A) classes handler :
  preserves R body -> (forall e, preserves R (handler e)) ->
  preserves R (try_except body classes handler).
Proof.
  intros Hb Hh w. unfold try_except. specialize (Hb w).
  destruct (body w) as [[a|e] w1]; simpl in *; [done|].
  destruct (classes e); [|done].
  eapply R_trans; [exact Hb|apply Hh].
Qed.

End Preserves.

Lemma quiet_print l : preserves only_printed (print l).
Proof. intros w. repeat split. by exists [l]. Qed.

Ltac quiet_step :=
  first
    [ apply preserves_ret; apply only_printed_refl
    | apply preserves_raise; apply only_printed_refl
    | apply preserves_lift; apply only_printed_refl
    | apply preserves_pil; apply only_printed_refl
    | apply quiet_print
    | apply preserves_bind; [apply only_printed_trans| |intros ?]
    | apply preserves_try_except;
      [apply only_printed_refl|apply only_printed_trans| |intros ?]
    | progress case_match ].

Ltac quiet := repeat quiet_step.

(** A computation that raises, if at all, an [Exception]. *)
Definition raises_Exception {A : Type} (m : M A) : Prop :=
  forall w e w', m w = (Raise e, w') -> is_Exception e = true.

Lemma raises_Exception_ret {A : Type} (a : A) : raises_Exception (mret a).
Proof. intros w e w' H. discriminate. Qed.

Lemma raises_Exception_bind {A B : Type} (m : M A) (f : A -> M B) :
  raises_Exception m -> (forall a, raises_Exception (f a)) ->
  raises_Exception (m ≫= f).
Proof.
  intros Hm Hf w e w'. rewrite bind_unfold.
  destruct (m w) as [[a|x] w1] eqn:E.
  - apply Hf.
  - intros [= <- <-]. by eapply Hm.
Qed.

Lemma raises_Exception_pil {A : Type} (r : string + A) : raises_Exception (pil r).
Proof. destruct r; intros w e w' [= <- <-] || intros w e w' ?; done. Qed.

Lemma raises_Exception_print l : raises_Exception (print l).
Proof. intros w e w' H. discriminate. Qed.

Definition result_Exception {A : Type} (r : result A) : Prop :=
  forall e, r = Raise e -> is_Exception e = true.

Lemma raises_Exception_lift {A : Type} (r : result A) :
  result_Exception r -> raises_Exception (lift r).
Proof. intros Hr w e w' [= -> <-]. by apply Hr. Qed.

Lemma result_Exception_bind {A B : Type} (r : result A) (g : A -> result B) :
  result_Exception r -> (forall a, result_Exception (g a)) ->
  result_Exception (r ≫= g).
Proof.
  intros Hr Hg e. destruct r as [a|x]; simpl.
  - apply Hg.
  - intros [= <-]. by apply Hr.
Qed.

Lemma of_int_Exception z : result_Exception (PyFloat.of_int z).
Proof. unfold PyFloat.of_int. intros e. case_match; by intros [= <-]. Qed.

Lemma truediv_Exception a b : result_Exception (PyFloat.truediv a b).
Proof.
  unfold PyFloat.truediv. case_match; [by intros e [= <-]|].
  apply result_Exception_bind; [apply of_int_Exception|intros x].
  apply result_Exception_bind; [apply of_int_Exception|intros y].
  by intros e.
Qed.

Lemma to_int_Exception x : result_Exception (PyFloat.to_int x).
Proof. unfold PyFloat.to_int. intros e. case_match; by intros [= <-]. Qed.

Lemma int_div_float_Exception a y :
  result_Exception (x ← PyFloat.int_div_float a y; PyFloat.to_int x).
Proof.
  apply result_Exception_bind; [|apply to_int_Exception].
  unfold PyFloat.int_div_float.
  apply result_Exception_bind; [apply of_int_Exception|intros x].
  intros e. case_match; by intros [= <-].
Qed.

Lemma int_mul_float_Exception a y :
  result_Exception (x ← PyFloat.int_mul_float a y; PyFloat.to_int x).
Proof.
  apply result_Exception_bind; [|apply to_int_Exception].
  unfold PyFloat.int_mul_float.
  apply result_Exception_bind; [apply of_int_Exception|intros x].
  by intros e.
Qed.

(** ** The letterbox transform *)

(** A computation that raises from every world. *)
Definition fails {A : Type} (m : M A) : Prop :=
  forall w, exists e w', m w = (Raise e, w').

Lemma fails_bind_l {A B : Type} (m : M A) (f : A -> M B) :
  fails m -> fails (m ≫= f).
Proof.
  intros Hm w. rewrite bind_unfold. destruct (Hm w) as (e & w' & ->). eauto.
Qed.

Lemma fails_bind_r {A B : Type} (m : M A) (f : A -> M B) :
  (forall a, fails (f a)) -> fails (m ≫= f).
Proof.
  intros Hf w. rewrite bind_unfold. destruct (m w) as [[a|e] w1]; [|eauto].
  apply Hf.
Qed.

Lemma fails_bind_pil {A B : Type} (r : string + A) (f : A -> M B) :
  (forall a, r = inr a -> fails (f a)) -> fails (pil r ≫= f).
Proof.
  intros Hf w. rewrite bind_unfold. destruct r as [msg|a]; simpl; [eauto|].
  by apply Hf.
Qed.

Lemma fails_bind_lift {A B : Type} (r : result A) (f : A -> M B) :
  (forall a, r = Ok a -> fails (f a)) -> fails (lift r ≫= f).
Proof.
  intros Hf w. rewrite bind_unfold. destruct r as [a|e]; simpl; [|eauto].
  by apply Hf.
Qed.

Lemma fails_assoc {A B C : Type} (m : M A) (g : A -> M B) (f : B -> M C) :
  fails (m ≫= (fun a => g a ≫= f)) -> fails ((m ≫= g) ≫= f).
Proof.
  intros H w. specialize (H w). rewrite !bind_unfold in *.
  destruct (m w) as [[a|e] w1]; [|done]. by rewrite bind_unfold in H.
Qed.

Lemma fails_ret_bind {A B : Type} (a : A) (f : A -> M B) :
  fails (f a) -> fails (mret a ≫= f).
Proof. intros H w. rewrite bind_unfold. apply H. Qed.

Lemma fails_pil_inl {A : Type} (r : string + A) msg : r = inl msg -> fails (pil r).
Proof. intros -> w. simpl. eauto. Qed.

Section Letterbox.

Context {pillow : PIL}.

Lemma letterbox_quiet content target filename tw th :
  preserves only_printed (letterbox content target filename tw th).
Proof. unfold letterbox. quiet. Qed.

Lemma letterbox_raises_Exception content target filename tw th :
  raises_Exception (letterbox content target filename tw th).
Proof.
  unfold letterbox.
  repeat first
    [ apply raises_Exception_pil
    | apply raises_Exception_print
    | apply raises_Exception_ret
    | apply raises_Exception_lift;
      first [ apply truediv_Exception | apply int_div_float_Exception
            | apply int_mul_float_Exception ]
    | apply raises_Exception_bind; [|intros ?]
    | progress case_match ].
Qed.

(** A decoded image, transposed or not, has a positive size. *)
Lemma transposed_size_positive content img img1 :
  Image_open content = inr img -> exif_transpose img = inr img1 ->
  0 < width img1 /\ 0 < height img1.
Proof.
  intros Ho Ht. destruct (open_size _ _ Ho) as [Hw Hh].
  unfold width, height.
  destruct (exif_transpose_size _ _ Ht) as [->| ->]; simpl; lia.
Qed.

(** With a target side below one pixel one of the two [resize] calls is
    refused, unless something failed before it. *)
Lemma letterbox_fails_nonpositive content target filename tw th :
  tw < 1 \/ th < 1 -> fails (letterbox content target filename tw th).
Proof.
  intros Hbad. unfold letterbox.
  apply fails_bind_pil; intros img Himg.
  apply fails_bind_r; intros [].
  apply fails_bind_pil; intros img1 Himg1.
  destruct (transposed_size_positive _ _ _ Himg Himg1) as [Hw Hh].
  assert (Hreject : forall w h flt, w < 1 \/ h < 1 ->
            fails (pil (resize img1 (w, h) flt))).
  { intros w h flt Hwh.
    destruct (resize_rejects img1 w h flt Hwh) as [msg Hmsg].
    - unfold width, height in *. destruct (img_size img1) as [a b].
      simpl in *. intros [= -> ->]. lia.
    - by eapply fails_pil_inl. }
  apply fails_bind_lift; intros target_ratio _.
  apply fails_bind_lift; intros img_ratio _.
  destruct (PyFloat.gt img_ratio target_ratio).
  - apply fails_assoc, fails_bind_lift; intros new_h _.
    apply fails_ret_bind.
    destruct (decide (tw < 1)) as [Htw|Htw].
    + apply fails_bind_l, Hreject. by left.
    + apply fails_bind_r; intros fg.
      apply fails_assoc, fails_bind_lift; intros bg_w _.
      apply fails_ret_bind.
      apply fails_bind_l, Hreject. right. lia.
  - apply fails_assoc, fails_bind_lift; intros new_w _.
    apply fails_ret_bind.
    destruct (decide (th < 1)) as [Hth|Hth].
    + apply fails_bind_l, Hreject. by right.
    + apply fails_bind_r; intros fg.
      apply fails_assoc, fails_bind_lift; intros bg_h _.
      apply fails_ret_bind.
      apply fails_bind_l, Hreject. left. lia.
Qed.

(** The result of the first [try] block of [resize_and_pad]. *)
Definition parsed_size (target_size_str : string) : option (Z * Z) :=
  match Py.split "x" (Py.lower target_size_str) with
  | [w_str; h_str] =>
      match Py.int w_str, Py.int h_str with
      | Some target_w, Some target_h => Some (target_w, target_h)
      | _, _ => None
      end
  | _ => None
  end.

Lemma parse_target_size_spec target w :
  exists w', parse_target_size target w = (Ok (parsed_size target), w')
             /\ only_printed w w'.
Proof.
  unfold parse_target_size, parsed_size, try_except.
  destruct (Py.split "x" (Py.lower target)) as [|w_str [|h_str [|]]];
    try (eexists; split; [reflexivity|apply (quiet_print _ w)]).
  destruct (Py.int w_str), (Py.int h_str);
    try (eexists; split; [reflexivity|apply (quiet_print _ w)]).
  eexists; split; [reflexivity|apply only_printed_refl].
Qed.

(** "Parses as two positive integers separated by [x]", the way the
    specification words it. *)
Definition two_positive_integers (target_size_str : string) : Prop :=
  exists w_str h_str target_w target_h,
    Py.split "x" (Py.lower target_size_str) = [w_str; h_str]
    /\ Py.int w_str = Some target_w /\ Py.int h_str = Some target_h
    /\ 0 < target_w /\ 0 < target_h.

(** [resize_and_pad] returns, having printed at most. *)
Lemma resize_and_pad_returns content target filename w :
  exists out w',
    resize_and_pad content target filename w = (Ok out, w')
    /\ only_printed w w'.
Proof.
  unfold resize_and_pad. rewrite bind_unfold.
  destruct (parse_target_size_spec target w) as (w1 & -> & Hq1).
  destruct (parsed_size target) as [[tw th]|]; [|by exists content, w1].
  unfold try_except.
  pose proof (letterbox_quiet content target filename tw th w1) as Hq2.
  pose proof (letterbox_raises_Exception content target filename tw th w1)
    as Hexc.
  destruct (letterbox content target filename tw th w1) as [[out|e] w2].
  - exists out, w2. split; [done|]. by eapply only_printed_trans.
  - rewrite (Hexc e w2 eq_refl). rewrite bind_unfold. cbn [print].
    rewrite ret_unfold. eexists _, _. split; [reflexivity|].
    eapply only_printed_trans; [exact Hq1|].
    eapply only_printed_trans; [exact Hq2|]. apply (quiet_print _ w2).
Qed.

(** C8 (the transform never fails and degrades to the input):
    [resize_and_pad] always returns, changing nothing but standard
    output; it returns the input bytes when the target-size string does
    not parse as two positive integers separated by [x], and when the
    processing of a parsed size raises an exception at any step. *)
Theorem resize_and_pad_falls_back content target filename w :
  exists out w',
    resize_and_pad content target filename w = (Ok out, w')
    /\ only_printed w w'
    /\ (~ two_positive_integers target -> out = content)
    /\ (forall tw th w1 e w2,
          parse_target_size target w = (Ok (Some (tw, th)), w1) ->
          letterbox content target filename tw th w1 = (Raise e, w2) ->
          out = content).
Proof.
  unfold resize_and_pad. rewrite bind_unfold.
  destruct (parse_target_size_spec target w) as (w1 & Hparse & Hq1).
  rewrite Hparse.
  destruct (parsed_size target) as [[tw th]|] eqn:Hsize.
  - unfold try_except.
    pose proof (letterbox_quiet content target filename tw th w1) as Hq2.
    pose proof (letterbox_raises_Exception content target filename tw th w1)
      as Hexc.
    destruct (letterbox content target filename tw th w1) as [[out|e] w2] eqn:Hl.
    + exists out, w2. simpl in Hq2.
      split; [done|]. split; [by eapply only_printed_trans|]. split.
      * intros Hnot.
        destruct (decide (tw < 1 \/ th < 1)) as [Hbad|Hgood].
        -- destruct (letterbox_fails_nonpositive content target filename tw th
                       Hbad w1) as (x & w3 & Hx). congruence.
        -- exfalso. apply Hnot. unfold parsed_size in Hsize.
           destruct (Py.split "x" (Py.lower target))
             as [|w_str [|h_str [|]]] eqn:Hsp; try discriminate.
           destruct (Py.int w_str) as [a|] eqn:Ha; [|discriminate].
           destruct (Py.int h_str) as [b|] eqn:Hb; [|discriminate].
           injection Hsize as -> ->.
           exists w_str, h_str, tw, th. repeat split; try done; lia.
      * intros tw' th' w1' e w2' [= <- <- <-] He. congruence.
    + rewrite (Hexc e w2 eq_refl). rewrite bind_unfold. cbn [print mret M_ret].
      eexists _, _. split; [reflexivity|]. simpl in Hq2. split.
      * eapply only_printed_trans; [exact Hq1|].
        eapply only_printed_trans; [exact Hq2|]. apply (quiet_print _ w2).
      * done.
  - exists content, w1. split; [done|]. split; [done|]. split; [done|].
    intros tw th w1' e w2 Hp. congruence.
Qed.

End Letterbox.

(** ** C9: a square image into a 2:1 canvas *)

(** A Pillow that has the resources for every well-formed request. *)
Class PILTotal (pillow : PIL) : Prop := {
  exif_transpose_total : forall i, exists j, exif_transpose i = inr j;
  resize_total : forall i w h f, 0 < w -> 0 < h ->
    exists j, resize i (w, h) f = inr j;
  gaussian_blur_total : forall i r, exists j, gaussian_blur i r = inr j;
  crop_total : forall i b x0 y0 x1 y1,
    rounded_box b = Ok (x0, y0, x1, y1) -> x0 <= x1 -> y0 <= y1 ->
    exists j, crop i b = inr j;
  paste_total : forall bg fg at_, exists j, paste bg fg at_ = inr j;
  save_total : forall i fmt q, exists b, save i fmt q = inr b
}.

Section Square.

Context {pillow : PIL} {total : PILTotal pillow}.






End Square.

(** ** The fetch step *)

(** What [fetch_album] answers, whatever the world. *)
Definition album_result (cfg : config) (net : network) (album : string)
    (st : dict * bool) : dict * bool :=
  match net (IMMICH_URL cfg +:+ "/api/albums/" +:+ album) (API_KEY cfg) with
  | Response c _ _ (Some items) =>
      if c =? 200
      then (foldl (fun d item => dict_set (id item) item d) (fst st) items, snd st)
      else (fst st, true)
  | Response c _ _ None => (fst st, true)
  | TransportError => (fst st, true)
  end.

(** What [get_assets] answers: the assets and [has_error]. *)
Definition catalog (cfg : config) (net : network) : dict * bool :=
  foldl (fun st album => album_result cfg net album st) ([], false) (ALBUM_IDS cfg).

Lemma fetch_album_spec cfg net album assets has_error w :
  exists w',
    fetch_album cfg net album assets has_error w
    = (Ok (album_result cfg net album (assets, has_error)), w')
    /\ only_printed w w'.
Proof.
  unfold fetch_album, album_result, try_except, requests_get.
  rewrite !bind_unfold. cbn [print fst snd].
  destruct (net (IMMICH_URL cfg +:+ "/api/albums/" +:+ album) (API_KEY cfg))
    as [c t b [items|]|]; cbn [raise mret M_ret is_Exception status_of].
  - rewrite bind_unfold. cbn [mret M_ret status_of].
    destruct (c =? 200); cbn [json_assets].
    + rewrite !bind_unfold. cbn [mret M_ret print].
      eexists. split; [reflexivity|]. repeat split. cbn [stdout].
      eexists. by rewrite <- app_assoc.
    + rewrite !bind_unfold. cbn [mret M_ret print text_of].
      eexists. split; [reflexivity|]. repeat split. cbn [stdout].
      eexists. by rewrite <- app_assoc.
  - rewrite bind_unfold. cbn [mret M_ret status_of].
    destruct (c =? 200); cbn [json_assets].
    + rewrite !bind_unfold. cbn [raise is_Exception print mret M_ret].
      eexists. split; [reflexivity|]. repeat split. cbn [stdout].
      eexists. by rewrite <- app_assoc.
    + rewrite !bind_unfold. cbn [mret M_ret print text_of].
      eexists. split; [reflexivity|]. repeat split. cbn [stdout].
      eexists. by rewrite <- app_assoc.
  - rewrite !bind_unfold. cbn [print mret M_ret].
    eexists. split; [reflexivity|]. repeat split. cbn [stdout].
    eexists. by rewrite <- app_assoc.
Qed.

Lemma fetch_albums_spec cfg net albums : forall st w,
  exists w',
    fetch_albums cfg net albums (fst st) (snd st) w
    = (Ok (foldl (fun st album => album_result cfg net album st) st albums), w')
    /\ only_printed w w'.
Proof.
  induction albums as [|album rest IH]; intros [assets has_error] w.
  - exists w. split; [done|apply only_printed_refl].
  - cbn [fetch_albums fst snd foldl]. rewrite bind_unfold.
    destruct (fetch_album_spec cfg net album assets has_error w)
      as (w1 & -> & Hq1).
    destruct (album_result cfg net album (assets, has_error))
      as [assets' has_error'] eqn:E.
    destruct (IH (assets', has_error') w1) as (w2 & Hrun & Hq2).
    exists w2. split; [exact Hrun|by eapply only_printed_trans].
Qed.

Lemma get_assets_spec cfg net w :
  exists w', get_assets cfg net w = (Ok (catalog cfg net), w')
             /\ only_printed w w'.
Proof. apply (fetch_albums_spec cfg net (ALBUM_IDS cfg) ([], false) w). Qed.

(** In the catalog every record is filed under its own id. *)
Definition well_keyed (d : dict) : Prop := Forall (fun kv => fst kv = id (snd kv)) d.

Lemma dict_set_well_keyed a d : well_keyed d -> well_keyed (dict_set (id a) a d).
Proof.
  induction 1 as [|[k v] d Hkv Hd IH]; simpl.
  - by repeat constructor.
  - destruct (String.eqb k (id a)); constructor; done.
Qed.

Lemma catalog_well_keyed cfg net : well_keyed (fst (catalog cfg net)).
Proof.
  unfold catalog.
  assert (H : well_keyed (fst (([], false) : dict * bool))) by constructor.
  revert H. generalize (([], false) : dict * bool).
  induction (ALBUM_IDS cfg) as [|album rest IH]; intros st Hst; [done|].
  simpl. apply IH. unfold album_result.
  destruct (net _ _) as [c t b [items|]|]; try done.
  destruct (c =? 200); [|done]. simpl.
  clear IH. revert Hst. generalize (fst st).
  induction items as [|item items IHi]; intros d Hd; [done|].
  simpl. apply IHi. by apply dict_set_well_keyed.
Qed.

Lemma well_keyed_id_in_keys d a : well_keyed d -> a ∈ values d -> id a ∈ keys d.
Proof.
  intros Hd (kv & -> & Hin)%(list_elem_of_fmap_1 snd).
  eapply Forall_forall in Hd; [|exact Hin]. rewrite <- Hd.
  by apply (list_elem_of_fmap_2 fst).
Qed.

(** ** The derived file name contains the asset id *)

Lemma prefix_app n y : String.prefix n (n +:+ y) = true.
Proof.
  induction n as [|c n IH]; simpl; [by destruct y|].
  destruct (ascii_dec c c); [done|congruence].
Qed.

Lemma contains_prefix n h : String.prefix n h = true -> Py.contains n h = true.
Proof. intros H. destruct h; cbn [Py.contains]; by rewrite H. Qed.

Lemma contains_app_r n x h : Py.contains n h = true -> Py.contains n (x +:+ h) = true.
Proof.
  intros H. induction x as [|c x IH]; [done|].
  change (String c x +:+ h) with (String c (x +:+ h)). cbn [Py.contains].
  rewrite IH. apply orb_true_r.
Qed.

Lemma get_filename_contains_id a : Py.contains (id a) (get_filename a) = true.
Proof.
  unfold get_filename. destruct (Py.splitext _) as [base ext].
  apply contains_app_r, contains_app_r, contains_prefix, prefix_app.
Qed.

(** ** [download_asset], case by case *)

Section Download.

Context {pillow : PIL}.

Definition download_url (cfg : config) (a : asset) : string :=
  IMMICH_URL cfg +:+ "/api/assets/" +:+ id a +:+ "/original".

(** The transfer endpoint answers 200 for the asset. *)
Definition downloadable (cfg : config) (net : network) (a : asset) : bool :=
  match net (download_url cfg a) (API_KEY cfg) with
  | Response c _ _ _ => c =? 200
  | TransportError => false
  end.

Definition touched (n : node) (now : Z) : node :=
  {| node_kind := node_kind n; st_mtime := now; data := data n;
     locked := locked n |}.

Definition fresh (content : bytes) (now : Z) : node :=
  {| node_kind := RegularFile; st_mtime := now; data := content;
     locked := false |}.

Lemma download_asset_locked cfg net a dir w n :
  fs w !! get_filename a = Some n -> locked n = true ->
  download_asset cfg net a dir w = (Raise PermissionError, w).
Proof.
  intros Hn Hl. unfold download_asset. rewrite bind_unfold.
  unfold os_path_exists, os_path_join. cbn [snd]. rewrite Hn.
  rewrite bool_decide_eq_true_2 by (by eexists).
  rewrite bind_unfold. unfold os_utime. cbn [snd]. by rewrite Hn, Hl.
Qed.

Lemma download_asset_present cfg net a dir w n :
  fs w !! get_filename a = Some n -> locked n = false ->
  download_asset cfg net a dir w
  = (Ok false, set_fs (<[get_filename a := touched n (clock w)]> (fs w)) w).
Proof.
  intros Hn Hl. unfold download_asset. rewrite bind_unfold.
  unfold os_path_exists, os_path_join. cbn [snd]. rewrite Hn.
  rewrite bool_decide_eq_true_2 by (by eexists).
  rewrite bind_unfold. unfold os_utime, touched. cbn [snd]. by rewrite Hn, Hl.
Qed.

Lemma download_asset_absent cfg net a dir w :
  fs w !! get_filename a = None ->
  exists w',
    download_asset cfg net a dir w = (Ok (downloadable cfg net a), w')
    /\ clock w' = clock w /\ rng w' = rng w
    /\ if downloadable cfg net a
       then exists content,
              fs w' = <[get_filename a := fresh content (clock w)]> (fs w)
       else fs w' = fs w.
Proof.
  intros Hn. unfold download_asset. rewrite bind_unfold.
  unfold os_path_exists, os_path_join. cbn [snd]. rewrite Hn.
  rewrite bool_decide_eq_false_2 by (by intros [? ?]).
  rewrite bind_unfold. cbn [print]. unfold try_except, requests_get, downloadable.
  fold (download_url cfg a). rewrite bind_unfold.
  set (w1 := {| fs := fs w; clock := clock w; rng := rng w;
                stdout := stdout w ++ [LogDownloading (get_filename a)];
                listing_seed := listing_seed w |}).
  destruct (net (download_url cfg a) (API_KEY cfg)) as [c t b items|].
  - cbn [mret M_ret status_of content_of]. destruct (c =? 200).
    + rewrite bind_unfold.
      assert (Hcontent : exists content w2,
        (if nonempty (TARGET_SIZE cfg)
         then resize_and_pad b (TARGET_SIZE cfg) (get_filename a)
         else mret b) w1 = (Ok content, w2) /\ only_printed w1 w2).
      { destruct (nonempty (TARGET_SIZE cfg)).
        - destruct (resize_and_pad_returns b (TARGET_SIZE cfg) (get_filename a) w1)
            as (out & w2 & Hrun & Hq). eauto.
        - exists b, w1. split; [done|apply only_printed_refl]. }
      destruct Hcontent as (content & w2 & -> & Hfs & Hck & Hrng & _).
      rewrite bind_unfold. unfold write_file. cbn [snd].
      rewrite Hfs. cbn [fs w1]. rewrite Hn. cbn [mret M_ret].
      eexists. split; [reflexivity|]. cbn [clock rng fs set_fs].
      split; [done|]. split; [done|]. exists content. by rewrite Hck.
    + rewrite bind_unfold. cbn [print mret M_ret].
      eexists. split; [reflexivity|]. done.
  - cbn [raise is_Exception]. rewrite bind_unfold. cbn [print mret M_ret].
    eexists. split; [reflexivity|]. done.
Qed.

(** C4, where the code departs from it: [download_asset] returns in all
    cases but one.  When the derived file exists and may not be
    re-stamped, [os.utime], called outside any [try] block, raises, and
    the [PermissionError] reaches the caller with nothing logged. *)
Theorem download_asset_raises_on_locked_file cfg net a dir w :
  match fs w !! get_filename a with
  | Some n =>
      if locked n
      then download_asset cfg net a dir w = (Raise PermissionError, w)
      else exists w', download_asset cfg net a dir w = (Ok false, w')
                      /\ stdout w' = stdout w
  | None =>
      exists b w', download_asset cfg net a dir w = (Ok b, w')
  end.
Proof.
  destruct (fs w !! get_filename a) as [n|] eqn:Hn.
  - destruct (locked n) eqn:Hl.
    + by apply (download_asset_locked cfg net a dir w n).
    + rewrite (download_asset_present cfg net a dir w n Hn Hl). by eexists.
  - destruct (download_asset_absent cfg net a dir w Hn) as (w' & -> & _).
    by eexists _, _.
Qed.


End Download.

(** ** One turn of the loop *)

(** The same entry, its modification time apart. *)
Definition same_modulo_mtime (n n' : node) : Prop :=
  node_kind n' = node_kind n /\ data n' = data n /\ locked n' = locked n.

(** From [w] to [w'] nothing was removed or rewritten: entries keep
    their kind, content and lock; new entries are unlocked regular files. *)
Definition extends (w w' : world) : Prop :=
  forall name,
    match fs w !! name with
    | Some n => exists n', fs w' !! name = Some n' /\ same_modulo_mtime n n'
    | None =>
        fs w' !! name = None
        \/ exists n', fs w' !! name = Some n' /\ is_regular n' = true
                      /\ locked n' = false
    end.

(** From [w] to [w'] modification times changed at most. *)
Definition refreshed (w w' : world) : Prop :=
  forall name,
    match fs w !! name with
    | Some n => exists n', fs w' !! name = Some n' /\ same_modulo_mtime n n'
    | None => fs w' !! name = None
    end.

Lemma same_modulo_mtime_refl n : same_modulo_mtime n n.
Proof. by repeat split. Qed.

Lemma same_modulo_mtime_trans n1 n2 n3 :
  same_modulo_mtime n1 n2 -> same_modulo_mtime n2 n3 -> same_modulo_mtime n1 n3.
Proof. intros (? & ? & ?) (? & ? & ?). repeat split; congruence. Qed.

Lemma refreshed_refl w : refreshed w w.
Proof.
  intros name. destruct (fs w !! name) as [n|] eqn:E; [|done].
  exists n. split; [done|apply same_modulo_mtime_refl].
Qed.

Lemma refreshed_trans w1 w2 w3 :
  refreshed w1 w2 -> refreshed w2 w3 -> refreshed w1 w3.
Proof.
  intros H12 H23 name. specialize (H12 name). specialize (H23 name).
  destruct (fs w1 !! name) as [n1|].
  - destruct H12 as (n2 & E2 & S12). rewrite E2 in H23.
    destruct H23 as (n3 & E3 & S23). exists n3.
    split; [done|by eapply same_modulo_mtime_trans].
  - by rewrite H12 in H23.
Qed.

Lemma refreshed_extends w w' : refreshed w w' -> extends w w'.
Proof.
  intros H name. specialize (H name).
  destruct (fs w !! name); [done|by left].
Qed.

Lemma same_fs_refreshed w w' : fs w' = fs w -> refreshed w w'.
Proof.
  intros H name. rewrite H. destruct (fs w !! name) as [n|] eqn:E; [|done].
  exists n. split; [done|apply same_modulo_mtime_refl].
Qed.

Lemma only_printed_refreshed w w' : only_printed w w' -> refreshed w w'.
Proof. intros (H & _). by apply same_fs_refreshed. Qed.

Lemma extends_refl w : extends w w.
Proof. apply refreshed_extends, refreshed_refl. Qed.

Lemma extends_trans w1 w2 w3 : extends w1 w2 -> extends w2 w3 -> extends w1 w3.
Proof.
  intros H12 H23 name. specialize (H12 name). specialize (H23 name).
  destruct (fs w1 !! name) as [n1|].
  - destruct H12 as (n2 & E2 & S12). rewrite E2 in H23.
    destruct H23 as (n3 & E3 & S23). exists n3.
    split; [done|by eapply same_modulo_mtime_trans].
  - destruct H12 as [E2|(n2 & E2 & Hr & Hl)].
    + by rewrite E2 in H23.
    + rewrite E2 in H23. destruct H23 as (n3 & E3 & Hk & Hd & Hl3).
      right. exists n3. split; [done|]. unfold is_regular in *.
      rewrite Hk, Hl3. done.
Qed.

(** A touch of an unlocked entry. *)
Lemma touch_refreshed w name n now :
  fs w !! name = Some n ->
  refreshed w (set_fs (<[name := {| node_kind := node_kind n; st_mtime := now;
                                    data := data n; locked := locked n |}]> (fs w)) w).
Proof.
  intros Hn other. cbn [fs set_fs].
  destruct (decide (other = name)) as [->|Hne].
  - rewrite Hn, lookup_insert_eq. eexists. split; [done|]. by repeat split.
  - rewrite lookup_insert_ne by done.
    destruct (fs w !! other) as [m|]; [|done].
    exists m. split; [done|apply same_modulo_mtime_refl].
Qed.

Section Cycle.

Context {pillow : PIL}.

Variables (cfg : config) (net : network).

Lemma download_asset_extends a dir w :
  extends w (snd (download_asset cfg net a dir w)).
Proof.
  destruct (fs w !! get_filename a) as [n|] eqn:Hn.
  - destruct (locked n) eqn:Hl.
    + rewrite (download_asset_locked cfg net a dir w n Hn Hl). apply extends_refl.
    + rewrite (download_asset_present cfg net a dir w n Hn Hl).
      apply refreshed_extends. unfold touched. by apply touch_refreshed.
  - destruct (download_asset_absent cfg net a dir w Hn) as (w' & -> & _ & _ & H).
    cbn [snd]. destruct (downloadable cfg net a).
    + destruct H as [content H]. intros other. rewrite H.
      destruct (decide (other = get_filename a)) as [->|Hne].
      * rewrite Hn, lookup_insert_eq. right. eexists. by repeat split.
      * rewrite lookup_insert_ne by done.
        destruct (fs w !! other) as [m|]; [|by left].
        exists m. split; [done|apply same_modulo_mtime_refl].
    + by apply refreshed_extends, same_fs_refreshed.
Qed.

Lemma download_all_extends l : forall k w,
  extends w (snd (download_all cfg net l k w)).
Proof.
  induction l as [|a l IH]; intros k w; [apply extends_refl|].
  cbn [download_all]. rewrite bind_unfold.
  pose proof (download_asset_extends a (DOWNLOAD_PATH cfg) w) as Ha.
  destruct (download_asset cfg net a (DOWNLOAD_PATH cfg) w) as [[b|e] w1];
    [|exact Ha].
  eapply extends_trans; [exact Ha|apply IH].
Qed.



End Cycle.

Section Turn.

Context {pillow : PIL}.

Variables (cfg : config) (net : network).

(** The world after the fetch and the orphan step of a turn. *)
Lemma fetch_and_download_split w :
  exists w3,
    sync_fetch_and_download cfg net w =
      (selection ← select_assets cfg (fst (catalog cfg net));
       downloaded_count ← download_all cfg net selection 0;
       mret (downloaded_count, protected_of cfg (fst (catalog cfg net)))) w3
    /\ if snd (catalog cfg net) then fs w3 = fs w
       else exists w2,
              fs w2 = fs w
              /\ purge_orphans cfg (keys (fst (catalog cfg net)))
                   (listing w2) w2 = (Ok tt, w3).
Proof.
  unfold sync_fetch_and_download.
  rewrite bind_unfold. cbn [print]. rewrite bind_unfold.
  set (w1 := {| fs := fs w; clock := clock w; rng := rng w;
                stdout := stdout w ++ [LogStartingSync];
                listing_seed := listing_seed w |}).
  destruct (get_assets_spec cfg net w1) as (w2 & -> & Hfs2 & _).
  cbn [fs w1] in Hfs2.
  destruct (catalog cfg net) as [assets has_error]. cbn [fst snd].
  rewrite bind_unfold. cbn [os_listdir]. rewrite bind_unfold.
  destruct has_error; cbn [negb].
  - cbn [print]. eexists. split; [reflexivity|]. done.
  - destruct (purge_orphans_spec cfg (keys assets) (listing w2) w2)
      as (w3 & lines & Hrun & _).
    rewrite Hrun. exists w3. split; [reflexivity|].
    exists w2. split; done.
Qed.


End Turn.

(** ** Two turns in a row *)

(** No entry the orphan loop would remove is left. *)
Definition no_removable_orphan (ids : list string) (f : gmap string node)
    : Prop :=
  forall name, orphan ids name = true -> removable f name = false.

Lemma purge_leaves_no_removable_orphan cfg ids w w' :
  purge_orphans cfg ids (listing w) w = (Ok tt, w') ->
  no_removable_orphan ids (fs w').
Proof.
  intros Hrun name Horph.
  destruct (purge_orphans_spec cfg ids (listing w) w)
    as (w2 & lines & Hrun2 & _ & _ & _ & _ & Hfs).
  rewrite Hrun in Hrun2. injection Hrun2 as <-.
  unfold removable at 1. rewrite Hfs, Horph. cbn [andb].
  destruct (bool_decide (name ∈ listing w)) eqn:Hin; cbn [andb].
  - destruct (removable (fs w) name) eqn:Hr; [done|exact Hr].
  - apply bool_decide_eq_false in Hin. rewrite elem_of_listing in Hin.
    destruct (fs w !! name) eqn:E; [|done]. exfalso. apply Hin. by eexists.
Qed.

Lemma purge_idle cfg ids listing w :
  no_removable_orphan ids (fs w) ->
  exists w', purge_orphans cfg ids listing w = (Ok tt, w')
             /\ fs w' = fs w.
Proof.
  intros Hno.
  destruct (purge_orphans_spec cfg ids listing w)
    as (w' & lines & Hrun & _ & _ & _ & _ & Hfs).
  exists w'. split; [done|]. apply map_eq. intros name. rewrite Hfs.
  destruct (orphan ids name) eqn:Horph; [|done].
  rewrite (Hno name Horph). by rewrite andb_false_r.
Qed.

Lemma derived_name_not_orphan ids a :
  id a ∈ ids -> orphan ids (get_filename a) = false.
Proof.
  intros Hin. unfold orphan. apply andb_false_iff. right.
  apply negb_false_iff, existsb_exists. exists (id a).
  split; [by apply list_elem_of_In|apply get_filename_contains_id].
Qed.

Lemma refreshed_dom w w' : refreshed w w' -> dom (fs w') = dom (fs w).
Proof.
  intros H. apply set_eq. intros name. rewrite !elem_of_dom.
  specialize (H name). destruct (fs w !! name) as [n|].
  - destruct H as (n' & -> & _). split; by eexists.
  - rewrite H. done.
Qed.

Lemma refreshed_candidates dir protected w w' l :
  refreshed w w' ->
  length (candidates dir protected (fs w') l)
  = length (candidates dir protected (fs w) l)
  /\ sum_sizes (candidates dir protected (fs w') l)
     = sum_sizes (candidates dir protected (fs w) l).
Proof.
  intros H. induction l as [|name l [IH1 IH2]]; [done|]. simpl.
  specialize (H name). destruct (fs w !! name) as [n|].
  - destruct H as (n' & -> & Hk & Hd & Hl).
    assert (Hc : is_candidate protected name n' = is_candidate protected name n).
    { unfold is_candidate, is_regular. by rewrite Hk. }
    rewrite Hc. destruct (is_candidate protected name n); [|done].
    simpl. unfold st_size. rewrite Hd, IH1, IH2. done.
  - by rewrite H.
Qed.

Lemma limits_respected_refreshed cfg dir protected w w' :
  refreshed w w' ->
  limits_respected cfg dir protected (fs w) ->
  limits_respected cfg dir protected (fs w').
Proof.
  intros H [Hc Hs]. unfold limits_respected, unprotected_total.
  rewrite (refreshed_dom w w' H).
  destruct (refreshed_candidates dir protected w w' (elements (dom (fs w))) H)
    as [-> ->].
  done.
Qed.

Section Idle.

Context {pillow : PIL}.

Variables (cfg : config) (net : network).

(** After a successful call the asset is settled: its file is there and
    may be re-stamped, or it is not there and cannot be fetched. *)
Definition settled (f : gmap string node) (a : asset) : Prop :=
  match f !! get_filename a with
  | Some n => locked n = false
  | None => downloadable cfg net a = false
  end.

Lemma settled_extends w w' a :
  extends w w' -> settled (fs w) a -> settled (fs w') a.
Proof.
  intros H. unfold settled. specialize (H (get_filename a)).
  destruct (fs w !! get_filename a) as [n|].
  - destruct H as (n' & -> & _ & _ & ->). done.
  - destruct H as [->|(n' & -> & _ & ->)]; done.
Qed.

Lemma download_asset_other a dir w name :
  name <> get_filename a ->
  fs (snd (download_asset cfg net a dir w)) !! name = fs w !! name.
Proof.
  intros Hne. destruct (fs w !! get_filename a) as [n|] eqn:Hn.
  - destruct (locked n) eqn:Hl.
    + by rewrite (download_asset_locked cfg net a dir w n Hn Hl).
    + rewrite (download_asset_present cfg net a dir w n Hn Hl).
      cbn [snd fs set_fs]. by rewrite lookup_insert_ne.
  - destruct (download_asset_absent cfg net a dir w Hn) as (w' & -> & _ & _ & H).
    cbn [snd]. destruct (downloadable cfg net a).
    + destruct H as [content ->]. by rewrite lookup_insert_ne.
    + by rewrite H.
Qed.

Lemma download_asset_settles a dir w b w' :
  download_asset cfg net a dir w = (Ok b, w') -> settled (fs w') a.
Proof.
  intros Hrun. unfold settled. destruct (fs w !! get_filename a) as [n|] eqn:Hn.
  - destruct (locked n) eqn:Hl.
    + rewrite (download_asset_locked cfg net a dir w n Hn Hl) in Hrun.
      discriminate.
    + rewrite (download_asset_present cfg net a dir w n Hn Hl) in Hrun.
      injection Hrun as <- <-. cbn [fs set_fs]. by rewrite lookup_insert_eq.
  - destruct (download_asset_absent cfg net a dir w Hn)
      as (w2 & Hrun2 & _ & _ & H).
    rewrite Hrun in Hrun2. injection Hrun2 as -> <-.
    destruct (downloadable cfg net a) eqn:Hd.
    + destruct H as [content ->]. by rewrite lookup_insert_eq.
    + by rewrite H, Hn.
Qed.

Lemma download_all_settles l : forall k w k' w',
  download_all cfg net l k w = (Ok k', w') ->
  forall a, a ∈ l -> settled (fs w') a.
Proof.
  induction l as [|x l IH]; intros k w k' w' Hrun a Ha; [by inversion Ha|].
  cbn [download_all] in Hrun. rewrite bind_unfold in Hrun.
  destruct (download_asset cfg net x (DOWNLOAD_PATH cfg) w) as [[b|e] w1] eqn:Hx;
    [|discriminate].
  apply elem_of_cons in Ha as [->|Ha].
  - apply (settled_extends w1 w').
    + pose proof (download_all_extends cfg net l
                    (if b then k + 1 else k) w1) as Hext.
      by rewrite Hrun in Hext.
    + by eapply download_asset_settles.
  - by eapply IH.
Qed.

Lemma download_all_no_removable_orphan ids l : forall k w,
  (forall a, a ∈ l -> id a ∈ ids) ->
  no_removable_orphan ids (fs w) ->
  no_removable_orphan ids (fs (snd (download_all cfg net l k w))).
Proof.
  induction l as [|x l IH]; intros k w Hids Hno; [done|].
  cbn [download_all]. rewrite bind_unfold.
  assert (Hx : no_removable_orphan ids
                 (fs (snd (download_asset cfg net x (DOWNLOAD_PATH cfg) w)))).
  { intros name Horph. unfold removable.
    rewrite download_asset_other; [by apply Hno|].
    intros ->. rewrite derived_name_not_orphan in Horph; [done|].
    apply Hids. by left. }
  destruct (download_asset cfg net x (DOWNLOAD_PATH cfg) w) as [[b|e] w1];
    [|exact Hx].
  apply IH; [|exact Hx]. intros a Ha. apply Hids. by right.
Qed.

(** With every asset settled the download step re-stamps at most. *)
Lemma download_all_idle l : forall k w,
  (forall a, a ∈ l -> settled (fs w) a) ->
  exists w', download_all cfg net l k w = (Ok k, w') /\ refreshed w w'.
Proof.
  induction l as [|x l IH]; intros k w Hset.
  - exists w. split; [done|apply refreshed_refl].
  - cbn [download_all]. rewrite bind_unfold.
    assert (Hx : exists w1,
      download_asset cfg net x (DOWNLOAD_PATH cfg) w = (Ok false, w1)
      /\ refreshed w w1).
    { pose proof (Hset x (list_elem_of_here _ _)) as Hs. unfold settled in Hs.
      destruct (fs w !! get_filename x) as [n|] eqn:Hn.
      - rewrite (download_asset_present cfg net x _ w n Hn Hs).
        eexists. split; [done|]. unfold touched. by apply touch_refreshed.
      - destruct (download_asset_absent cfg net x (DOWNLOAD_PATH cfg) w Hn)
          as (w1 & Hrun & _ & _ & H).
        rewrite Hs in Hrun, H. exists w1. split; [done|].
        by apply same_fs_refreshed. }
    destruct Hx as (w1 & -> & Hr1).
    destruct (IH k w1) as (w' & Hrun & Hr).
    + intros a Ha. apply (settled_extends w w1); [by apply refreshed_extends|].
      apply Hset. by right.
    + exists w'. split; [exact Hrun|by eapply refreshed_trans].
Qed.

(** No sampling takes place: [RANDOM_SELECT] is off, or not below the
    number of assets it would sample from. *)
Definition no_sampling : Prop :=
  RANDOM_SELECT cfg <= 0
  \/ Z.of_nat (length (others_of cfg (fst (catalog cfg net)))) <= RANDOM_SELECT cfg.

Lemma select_assets_no_sampling w :
  no_sampling ->
  select_assets cfg (fst (catalog cfg net)) w
  = (Ok (favorites_of cfg (fst (catalog cfg net))
         ++ others_of cfg (fst (catalog cfg net))), w).
Proof.
  intros Hno. unfold select_assets.
  destruct (0 <? RANDOM_SELECT cfg) eqn:H0; [|done].
  destruct (RANDOM_SELECT cfg <? _) eqn:H1; [|done].
  apply Z.ltb_lt in H0. apply Z.ltb_lt in H1. unfold no_sampling in Hno. lia.
Qed.

Lemma selection_ids a :
  a ∈ favorites_of cfg (fst (catalog cfg net))
      ++ others_of cfg (fst (catalog cfg net)) ->
  id a ∈ keys (fst (catalog cfg net)).
Proof.
  intros Ha. apply well_keyed_id_in_keys; [apply catalog_well_keyed|].
  unfold favorites_of, others_of in Ha.
  destruct (ALBUMS_FAVORITES cfg).
  - apply elem_of_app in Ha as [Ha|Ha];
      apply list_elem_of_filter in Ha as [_ Ha]; exact Ha.
  - apply elem_of_app in Ha as [Ha|Ha]; [by inversion Ha|exact Ha].
Qed.

End Idle.

Section Idempotence.

Context {pillow : PIL}.

Variables (cfg : config) (net : network).

(** The end of a turn whose retention step finds both limits respected. *)
Lemma sync_cycle_within_limits w k prot m :
  sync_fetch_and_download cfg net w = (Ok (k, prot), m) ->
  limits_respected cfg (DOWNLOAD_PATH cfg) prot (fs m) ->
  exists w', sync_cycle cfg net w = (Ok k, w') /\ fs w' = fs m.
Proof.
  intros Hpre Hlim. unfold sync_cycle. rewrite bind_unfold, Hpre.
  destruct (enforce_limits_within_limits cfg (DOWNLOAD_PATH cfg) prot m Hlim)
    as (w1 & Hrun & Hfs & _).
  rewrite bind_unfold, Hrun. rewrite bind_unfold. cbn [print].
  rewrite ret_unfold. eexists. split; [reflexivity|]. done.
Qed.

(** C3, as amended (idempotence): let a first turn reach its retention
    step with both limits respected, and let no sampling take place.
    Then the turn ends, and a second turn started on the directory it
    leaves, with the same catalog and the same remote, downloads
    nothing (count 0, no new entry) and removes nothing: every entry is
    kept with its kind, content and lock, its modification time apart. *)
Theorem second_turn_is_idle w0 n1 prot m1 :
  no_sampling cfg net ->
  sync_fetch_and_download cfg net w0 = (Ok (n1, prot), m1) ->
  limits_respected cfg (DOWNLOAD_PATH cfg) prot (fs m1) ->
  exists w1,
    sync_cycle cfg net w0 = (Ok n1, w1)
    /\ forall w1', fs w1' = fs w1 ->
         exists w2, sync_cycle cfg net w1' = (Ok 0, w2) /\ refreshed w1 w2.
Proof.
  intros Hno Hpre Hlim.
  set (assets := fst (catalog cfg net)).
  set (sel := favorites_of cfg assets ++ others_of cfg assets).
  (* the first turn *)
  destruct (fetch_and_download_split cfg net w0) as (w3 & Hsplit & Hpurge).
  rewrite Hpre in Hsplit. rewrite bind_unfold in Hsplit.
  rewrite (select_assets_no_sampling cfg net w3 Hno) in Hsplit.
  fold assets in Hsplit. fold sel in Hsplit. rewrite bind_unfold in Hsplit.
  destruct (download_all cfg net sel 0 w3) as [[k|e] w4] eqn:Hdl;
    [|discriminate].
  rewrite ret_unfold in Hsplit. injection Hsplit as -> -> ->.
  assert (Hsettled : forall a, a ∈ sel -> settled cfg net (fs w4) a).
  { by eapply download_all_settles. }
  assert (Horph : snd (catalog cfg net) = false ->
                  no_removable_orphan (keys assets) (fs w4)).
  { intros Herr. rewrite Herr in Hpurge. destruct Hpurge as (w2 & Hfs2 & Hrun).
    apply purge_leaves_no_removable_orphan in Hrun.
    pose proof (download_all_no_removable_orphan cfg net (keys assets) sel 0 w3
                  (selection_ids cfg net) Hrun) as H.
    by rewrite Hdl in H. }
  destruct (sync_cycle_within_limits w0 k _ w4 Hpre Hlim) as (w1 & Hrun1 & Hfs1).
  exists w1. split; [exact Hrun1|].
  (* the second turn *)
  intros w1' Hfs1'.
  destruct (fetch_and_download_split cfg net w1') as (w3' & Hsplit' & Hpurge').
  assert (Hfs3 : fs w3' = fs w4).
  { destruct (snd (catalog cfg net)) eqn:Herr.
    - congruence.
    - destruct Hpurge' as (w2' & Hfs2' & Hrun').
      destruct (purge_idle cfg (keys assets) (listing w2') w2')
        as (w5 & Hrun5 & Hfs5).
      + rewrite Hfs2', Hfs1', Hfs1. by apply Horph.
      + fold assets in Hrun'. rewrite Hrun' in Hrun5. injection Hrun5 as <-.
        congruence. }
  rewrite bind_unfold in Hsplit'.
  rewrite (select_assets_no_sampling cfg net w3' Hno) in Hsplit'.
  fold assets in Hsplit'. fold sel in Hsplit'. rewrite bind_unfold in Hsplit'.
  destruct (download_all_idle cfg net sel 0 w3') as (w4' & Hdl' & Hr').
  { intros a Ha. unfold settled. rewrite Hfs3. by apply Hsettled. }
  rewrite Hdl', ret_unfold in Hsplit'.
  assert (Hr14 : refreshed w1 w4').
  { eapply refreshed_trans; [|exact Hr']. apply same_fs_refreshed. congruence. }
  destruct (sync_cycle_within_limits w1' 0 _ w4' Hsplit') as (w2 & Hrun2 & Hfs2).
  { apply (limits_respected_refreshed _ _ _ w4 w4'); [|exact Hlim].
    eapply refreshed_trans; [|exact Hr']. by apply same_fs_refreshed. }
  exists w2. split; [exact Hrun2|].
  eapply refreshed_trans; [exact Hr14|]. by apply same_fs_refreshed.
Qed.

End Idempotence.

(** ** Start-up *)

Section Startup.

Context {pillow : PIL}.

Variable py_float : string -> option Q.





End Startup.

(* ================================================================= *)
(** * Further properties of the script *)

(** ** [get_assets]: what is fetched and what is reported *)

(** The items of an album whose fetch succeeds: status 200 and a body
    with an ["assets"] array. *)
Definition album_items (cfg : config) (net : network) (album : string)
    : option (list asset) :=
  match net (IMMICH_URL cfg +:+ "/api/albums/" +:+ album) (API_KEY cfg) with
  | Response c _ _ (Some items) => if c =? 200 then Some items else None
  | _ => None
  end.

(** The records received, album after album. *)
Definition fetched_items (cfg : config) (net : network) : list asset :=
  flat_map (fun album => default [] (album_items cfg net album)) (ALBUM_IDS cfg).

(** [d[k]], when the key is there. *)
Fixpoint dict_get (k : string) (d : dict) : option asset :=
  match d with
  | [] => None
  | (k', v) :: r => if String.eqb k' k then Some v else dict_get k r
  end.

(** [for item in items: assets[item['id']] = item] *)
Definition store (d : dict) (items : list asset) : dict :=
  foldl (fun d item => dict_set (id item) item d) d items.

Lemma album_result_items cfg net album st :
  album_result cfg net album st =
  match album_items cfg net album with
  | Some items => (store (fst st) items, snd st)
  | None => (fst st, true)
  end.
Proof.
  unfold album_result, album_items.
  destruct (net _ _) as [c t b [items|]|]; try done. by destruct (c =? 200).
Qed.

Lemma store_app d l1 l2 : store d (l1 ++ l2) = store (store d l1) l2.
Proof. apply foldl_app. Qed.

Lemma albums_fold cfg net albums : forall st,
  foldl (fun st album => album_result cfg net album st) st albums
  = (store (fst st)
       (flat_map (fun album => default [] (album_items cfg net album)) albums),
     snd st
     || existsb (fun album => bool_decide (album_items cfg net album = None))
          albums).
Proof.
  induction albums as [|album rest IH]; intros [d e]; cbn [foldl flat_map existsb fst snd].
  - by rewrite orb_false_r.
  - rewrite IH, album_result_items.
    destruct (album_items cfg net album) as [items|]; cbn [fst snd default].
    + rewrite store_app. by rewrite bool_decide_eq_false_2.
    + rewrite bool_decide_eq_true_2 by done. cbn [app orb]. by rewrite orb_true_r.
Qed.

Lemma catalog_items cfg net :
  catalog cfg net
  = (store [] (fetched_items cfg net),
     existsb (fun album => bool_decide (album_items cfg net album = None))
       (ALBUM_IDS cfg)).
Proof. unfold catalog. by rewrite albums_fold. Qed.


Lemma dict_get_set_eq k v d : dict_get k (dict_set k v d) = Some v.
Proof.
  induction d as [|[k' v'] r IH]; cbn [dict_set dict_get].
  - by rewrite String.eqb_refl.
  - destruct (String.eqb k' k) eqn:E; cbn [dict_get].
    + by rewrite String.eqb_refl.
    + by rewrite E.
Qed.

Lemma dict_get_set_ne k k' v d :
  k <> k' -> dict_get k' (dict_set k v d) = dict_get k' d.
Proof.
  intros Hne. induction d as [|[k0 v0] r IH]; cbn [dict_set dict_get].
  - by apply String.eqb_neq in Hne as ->.
  - destruct (String.eqb k0 k) eqn:E; cbn [dict_get].
    + apply String.eqb_eq in E as ->.
      by apply String.eqb_neq in Hne as ->.
    + by rewrite IH.
Qed.

Lemma keys_dict_set_in k v d : k ∈ keys d -> keys (dict_set k v d) = keys d.
Proof.
  induction d as [|[k0 v0] r IH]; cbn [dict_set keys map fst].
  - by intros ?%elem_of_nil.
  - destruct (String.eqb k0 k) eqn:E; cbn [map fst].
    + by apply String.eqb_eq in E as ->.
    + intros [->|Hin]%elem_of_cons; [by rewrite String.eqb_refl in E|].
      f_equal. by apply IH.
Qed.

Lemma keys_dict_set_notin k v d : k ∉ keys d -> keys (dict_set k v d) = keys d ++ [k].
Proof.
  induction d as [|[k0 v0] r IH]; cbn [dict_set keys map fst]; [done|].
  intros Hnot. destruct (String.eqb k0 k) eqn:E.
  - apply String.eqb_eq in E as ->. exfalso. apply Hnot. by left.
  - cbn [map fst app]. f_equal. apply IH. intros Hin. apply Hnot. by right.
Qed.

Lemma dict_set_keys_NoDup k v d : NoDup (keys d) -> NoDup (keys (dict_set k v d)).
Proof.
  intros Hd. destruct (decide (k ∈ keys d)) as [Hin|Hnot].
  - by rewrite keys_dict_set_in.
  - rewrite keys_dict_set_notin by done.
    apply NoDup_app. split; [done|]. split; [|apply NoDup_singleton].
    intros x Hx ->%list_elem_of_singleton. done.
Qed.

Lemma store_keys_NoDup items : forall d, NoDup (keys d) -> NoDup (keys (store d items)).
Proof.
  induction items as [|item items IH]; intros d Hd; [done|].
  cbn [store foldl]. apply IH. by apply dict_set_keys_NoDup.
Qed.

(** The last record of [items] carrying the id [k]. *)
Definition last_with_id (k : string) (items : list asset) : option asset :=
  last (filter (fun a => id a = k) items).

Lemma store_get k items : forall d,
  dict_get k (store d items)
  = match last_with_id k items with
    | Some a => Some a
    | None => dict_get k d
    end.
Proof.
  unfold last_with_id.
  induction items as [|item items IH] using rev_ind; intros d; [done|].
  rewrite store_app, filter_app. cbn [store foldl].
  rewrite filter_cons, filter_nil.
  destruct (decide (id item = k)) as [<-|Hne].
  - by rewrite last_snoc, dict_get_set_eq.
  - rewrite app_nil_r, dict_get_set_ne by done. apply IH.
Qed.

Lemma dict_get_elem k d a : dict_get k d = Some a -> a ∈ values d.
Proof.
  induction d as [|[k0 v0] r IH]; cbn [dict_get values map snd]; [done|].
  destruct (String.eqb k0 k).
  - intros [= ->]. by left.
  - intros H. right. by apply IH.
Qed.

Lemma dict_get_keys k d : k ∈ keys d <-> is_Some (dict_get k d).
Proof.
  induction d as [|[k0 v0] r IH]; cbn [dict_get keys map fst].
  - split; [by intros ?%elem_of_nil|by intros [? ?]].
  - destruct (String.eqb k0 k) eqn:E.
    + apply String.eqb_eq in E as ->. split; [by eexists|by left].
    + apply String.eqb_neq in E. rewrite elem_of_cons. split.
      * intros [->|Hin]; [done|by apply IH].
      * intros H. right. by apply IH.
Qed.

(** X2. The dict answered by [get_assets] has one entry per asset id
    received, and the entry of an id is the last record received with
    that id, over all albums in the order of [ALBUM_IDS]: a later album
    overrides an earlier one. *)
Theorem get_assets_last_record_wins cfg net w :
  exists assets has_error w',
    get_assets cfg net w = (Ok (assets, has_error), w')
    /\ NoDup (keys assets)
    /\ (forall k, dict_get k assets = last_with_id k (fetched_items cfg net))
    /\ (forall k, k ∈ keys assets <-> k ∈ map id (fetched_items cfg net)).
Proof.
  destruct (get_assets_spec cfg net w) as (w' & Hrun & _).
  exists (fst (catalog cfg net)), (snd (catalog cfg net)), w'.
  split; [by rewrite Hrun; destruct (catalog cfg net)|].
  rewrite catalog_items. cbn [fst].
  assert (Hget : forall k, dict_get k (store [] (fetched_items cfg net))
                           = last_with_id k (fetched_items cfg net)).
  { intros k. rewrite store_get. by destruct (last_with_id _ _). }
  split; [apply store_keys_NoDup, NoDup_nil_2|]. split; [exact Hget|].
  intros k. rewrite dict_get_keys, Hget. unfold last_with_id. split.
  - intros [a Ha]. apply last_Some in Ha as (l' & Hl').
    assert (Hin : a ∈ filter (fun a => id a = k) (fetched_items cfg net)).
    { rewrite Hl'. apply elem_of_app. right. by left. }
    apply list_elem_of_filter in Hin as [<- Hin].
    by apply (list_elem_of_fmap_2 id).
  - intros (a & -> & Hin)%(list_elem_of_fmap_1 id).
    assert (Hf : a ∈ filter (fun b => id b = id a) (fetched_items cfg net)).
    { by apply list_elem_of_filter. }
    destruct (filter _ _) as [|x l] using rev_ind; [by apply elem_of_nil in Hf|].
    rewrite last_snoc. by eexists.
Qed.

(** ** The whole turn, stage by stage *)

(** What [random.sample] draws is a sub-multiset of the population, of
    the size asked for when the population is large enough. *)
Lemma draw_submseteq {A : Type} (k : nat) : forall (pool : list A) seed,
  fst (draw pool k seed) ⊆+ pool.
Proof.
  induction k as [|k IH]; intros pool seed; cbn [draw fst].
  - apply submseteq_nil_l.
  - destruct (pool !! (hd 0%nat seed mod length pool)%nat) as [x|] eqn:Hx;
      [|apply submseteq_nil_l].
    specialize (IH (delete (hd 0%nat seed mod length pool)%nat pool) (tl seed)).
    destruct (draw _ k (tl seed)) as [xs seed'']. cbn [fst] in *.
    rewrite (delete_Permutation pool _ x Hx). by apply submseteq_skip.
Qed.

Lemma draw_length {A : Type} (k : nat) : forall (pool : list A) seed,
  (k <= length pool)%nat -> length (fst (draw pool k seed)) = k.
Proof.
  induction k as [|k IH]; intros pool seed Hk; [done|]. cbn [draw].
  assert (Hlt : (hd 0%nat seed mod length pool < length pool)%nat).
  { apply Nat.mod_upper_bound. lia. }
  destruct (lookup_lt_is_Some_2 pool _ Hlt) as [x Hx]. rewrite Hx.
  specialize (IH (delete (hd 0%nat seed mod length pool)%nat pool) (tl seed)).
  destruct (draw _ k (tl seed)) as [xs seed'']. cbn [fst length] in *.
  rewrite IH; [done|]. rewrite length_delete by (by eexists). lia.
Qed.

Section Stages.

Context {pillow : PIL}.

Variables (cfg : config) (net : network).

(** Whether step 1 samples. *)
Definition sampling (assets : dict) : bool :=
  (0 <? RANDOM_SELECT cfg)
  && (RANDOM_SELECT cfg <? Z.of_nat (length (others_of cfg assets))).

Lemma select_assets_spec assets w :
  exists picked w',
    select_assets cfg assets w = (Ok (favorites_of cfg assets ++ picked), w')
    /\ fs w' = fs w /\ clock w' = clock w /\ listing_seed w' = listing_seed w
    /\ picked ⊆+ others_of cfg assets
    /\ length picked
       = (if sampling assets then Z.to_nat (RANDOM_SELECT cfg)
          else length (others_of cfg assets)).
Proof.
  unfold select_assets, sampling.
  destruct (0 <? RANDOM_SELECT cfg) eqn:H0; cbn [andb].
  2:{ exists (others_of cfg assets), w. by rewrite ret_unfold. }
  destruct (RANDOM_SELECT cfg <? _) eqn:H1.
  2:{ exists (others_of cfg assets), w. by rewrite ret_unfold. }
  apply Z.ltb_lt in H0. apply Z.ltb_lt in H1.
  rewrite bind_unfold. cbn [print]. rewrite bind_unfold.
  unfold random_sample. cbn [fs rng clock stdout listing_seed].
  replace (RANDOM_SELECT cfg <? 0) with false by (symmetry; apply Z.ltb_ge; lia).
  replace (Z.of_nat (length (others_of cfg assets)) <? RANDOM_SELECT cfg)
    with false by (symmetry; apply Z.ltb_ge; lia).
  cbn [orb].
  pose proof (draw_submseteq (Z.to_nat (RANDOM_SELECT cfg))
                (others_of cfg assets) (rng w)) as Hsub.
  pose proof (draw_length (Z.to_nat (RANDOM_SELECT cfg))
                (others_of cfg assets) (rng w)) as Hlen.
  destruct (draw _ _ _) as [xs seed']. cbn [fst] in *.
  rewrite ret_unfold. exists xs. eexists. split; [reflexivity|].
  repeat split; try done. apply Hlen. lia.
Qed.

Lemma others_in_values assets a : a ∈ others_of cfg assets -> a ∈ values assets.
Proof.
  unfold others_of. destruct (ALBUMS_FAVORITES cfg); [|done].
  by intros [_ ?]%list_elem_of_filter.
Qed.

Lemma favorites_in_values assets a :
  a ∈ favorites_of cfg assets -> a ∈ values assets.
Proof.
  unfold favorites_of. destruct (ALBUMS_FAVORITES cfg).
  - by intros [_ ?]%list_elem_of_filter.
  - by intros ?%elem_of_nil.
Qed.

(** Downloads leave alone every name that is not a derived one. *)
Lemma download_all_other l name : forall k w,
  (forall a, a ∈ l -> name <> get_filename a) ->
  fs (snd (download_all cfg net l k w)) !! name = fs w !! name.
Proof.
  induction l as [|x l IH]; intros k w Hne; [done|].
  cbn [download_all]. rewrite bind_unfold.
  pose proof (download_asset_other cfg net x (DOWNLOAD_PATH cfg) w name
                (Hne x (list_elem_of_here _ _))) as Hx.
  destruct (download_asset cfg net x (DOWNLOAD_PATH cfg) w) as [[b|e] w1];
    cbn [snd] in *; [|exact Hx].
  rewrite IH; [exact Hx|]. intros a Ha. apply Hne. by right.
Qed.

(** The retention step removes candidates that can be unlinked, and does
    nothing else to the directory. *)
Lemma retention_effect dir protected w name :
  let w' := snd (enforce_limits cfg dir protected w) in
  fs w' !! name = fs w !! name
  \/ (fs w' !! name = None
      /\ retention_enabled cfg = true
      /\ exists n, fs w !! name = Some n
                   /\ is_candidate protected name n = true
                   /\ locked n = false).
Proof.
  intros w'. subst w'.
  destruct (retention_enabled cfg) eqn:Hen.
  2:{ left. by rewrite enforce_limits_disabled. }
  destruct (enforce_limits_spec cfg dir protected w Hen)
    as (j & w' & _ & Hrun & Hfs & _).
  rewrite Hrun. cbn [snd]. rewrite Hfs.
  set (gone := take j _). set (total := sum_sizes _).
  destruct (decide (name ∈ map entry_name gone)) as [Hin|Hout].
  2:{ left. by rewrite evict_lookup_notin. }
  destruct (fst (evict (fs w) gone total) !! name) as [x|] eqn:Hx.
  { left. symmetry. by eapply evict_lookup_Some. }
  right. split; [done|]. split; [done|].
  apply (list_elem_of_fmap_1 entry_name) in Hin as (e & -> & He).
  pose proof (sorted_listed dir protected (fs w) (listing w) j) as Hl.
  eapply Forall_forall in Hl as (n & Hn & Hc & _); [|exact He].
  exists n. split; [done|]. split; [done|].
  (* had the entry been locked, no attempt would have removed it *)
  destruct (locked n) eqn:Hlock; [|done]. exfalso.
  clear He Hc. revert Hx. generalize total. generalize (fs w) Hn.
  induction gone as [|e' r IH]; intros f Hf t; cbn [evict fst].
  - by rewrite Hf.
  - destruct (removable f (entry_name e')) eqn:Hr; [|by apply IH].
    apply IH. rewrite lookup_delete_ne; [done|].
    intros Heq. unfold removable in Hr. rewrite Heq, Hf, Hlock in Hr.
    by rewrite andb_false_r in Hr.
Qed.

Lemma enforce_limits_returns dir protected w :
  exists w', enforce_limits cfg dir protected w = (Ok tt, w').
Proof.
  destruct (retention_enabled cfg) eqn:Hen.
  - destruct (enforce_limits_spec cfg dir protected w Hen)
      as (j & w' & _ & Hrun & _). by exists w'.
  - exists w. by apply enforce_limits_disabled.
Qed.

(** The stages of a turn: the world [w3] after the fetch and the orphan
    step, the selection made in it, and the turn as the downloads
    followed by the retention step. *)
Lemma sync_cycle_stages w :
  let assets := fst (catalog cfg net) in
  exists w3 picked w4,
    (if snd (catalog cfg net) then fs w3 = fs w
     else forall name,
            fs w3 !! name =
            if orphan (keys assets) name && removable (fs w) name
            then None else fs w !! name)
    /\ select_assets cfg assets w3 = (Ok (favorites_of cfg assets ++ picked), w4)
    /\ fs w4 = fs w3
    /\ picked ⊆+ others_of cfg assets
    /\ sync_cycle cfg net w =
       match download_all cfg net (favorites_of cfg assets ++ picked) 0 w4 with
       | (Ok k, w5) =>
           (enforce_limits cfg (DOWNLOAD_PATH cfg) (protected_of cfg assets);;
            print (LogSyncComplete k);; mret k) w5
       | (Raise e, w5) => (Raise e, w5)
       end.
Proof.
  intros assets.
  destruct (fetch_and_download_split cfg net w) as (w3 & Hsplit & Hpurge).
  destruct (select_assets_spec assets w3)
    as (picked & w4 & Hsel & Hfs4 & _ & _ & Hsub & _).
  exists w3, picked, w4. split.
  { destruct (snd (catalog cfg net)); [done|].
    destruct Hpurge as (w2 & Hfs2 & Hrun).
    destruct (purge_orphans_spec cfg (keys assets) (listing w2) w2)
      as (w3' & lines & Hrun' & _ & _ & _ & _ & Hfs3).
    fold assets in Hrun. rewrite Hrun in Hrun'. injection Hrun' as <-.
    intros name. rewrite Hfs3, Hfs2.
    destruct (orphan (keys assets) name); cbn [andb]; [|done].
    destruct (removable (fs w) name) eqn:Hr; [|by rewrite andb_false_r].
    rewrite bool_decide_eq_true_2; [done|].
    apply elem_of_listing. rewrite Hfs2. unfold removable in Hr.
    destruct (fs w !! name); [by eexists|done]. }
  split; [exact Hsel|]. split; [exact Hfs4|]. split; [exact Hsub|].
  unfold sync_cycle. rewrite bind_unfold, Hsplit.
  fold assets. rewrite bind_unfold, Hsel, bind_unfold.
  destruct (download_all cfg net _ 0 w4) as [[k|e] w5]; [|done].
  by rewrite ret_unfold.
Qed.

Lemma selection_in_catalog picked a :
  picked ⊆+ others_of cfg (fst (catalog cfg net)) ->
  a ∈ favorites_of cfg (fst (catalog cfg net)) ++ picked ->
  id a ∈ keys (fst (catalog cfg net)).
Proof.
  intros Hsub Ha. apply well_keyed_id_in_keys; [apply catalog_well_keyed|].
  apply elem_of_app in Ha as [Ha|Ha].
  - by apply favorites_in_values.
  - eapply others_in_values, elem_of_submseteq; done.
Qed.

(** The end of a turn, from the world the downloads leave. *)
Lemma turn_end_lookup_None prot k w5 name :
  fs w5 !! name = None ->
  fs (snd ((enforce_limits cfg (DOWNLOAD_PATH cfg) prot;;
            print (LogSyncComplete k);; mret k) w5)) !! name = None.
Proof.
  intros Hnone. rewrite bind_unfold.
  pose proof (retention_effect (DOWNLOAD_PATH cfg) prot w5 name) as Heff.
  destruct (enforce_limits_returns (DOWNLOAD_PATH cfg) prot w5) as (w6 & Hrun).
  rewrite Hrun in *. cbn [snd] in Heff.
  rewrite bind_unfold. cbn [print]. rewrite ret_unfold. cbn [snd fs].
  destruct Heff as [->|[-> _]]; done.
Qed.

(** An orphan that can be unlinked does not outlive a turn without
    fetch error. *)
Lemma orphan_gone w name :
  snd (catalog cfg net) = false ->
  orphan (keys (fst (catalog cfg net))) name = true ->
  removable (fs w) name = true ->
  fs (snd (sync_cycle cfg net w)) !! name = None.
Proof.
  intros Herr Horph Hrem.
  destruct (sync_cycle_stages w) as (w3 & picked & w4 & Hpurge & _ & Hfs4 & Hsub & ->).
  rewrite Herr in Hpurge. specialize (Hpurge name).
  rewrite Horph, Hrem in Hpurge. cbn [andb] in Hpurge.
  pose proof (download_all_other
                (favorites_of cfg (fst (catalog cfg net)) ++ picked) name 0 w4)
    as Hdl.
  rewrite Hfs4, Hpurge in Hdl.
  destruct (download_all cfg net _ 0 w4) as [[k|e] w5]; cbn [snd] in *.
  - apply turn_end_lookup_None. apply Hdl. intros a Ha ->.
    rewrite derived_name_not_orphan in Horph; [done|].
    by eapply selection_in_catalog.
  - apply Hdl. intros a Ha ->.
    rewrite derived_name_not_orphan in Horph; [done|].
    by eapply selection_in_catalog.
Qed.

(** X3. In a turn whose fetch reports no error, every entry of the
    directory that is not hidden, carries no current asset id in its
    name and can be unlinked (a regular file that is not locked) is gone
    when the turn ends, however the turn ends. *)
Theorem orphans_do_not_outlive_a_turn w assets name :
  fst (get_assets cfg net w) = Ok (assets, false) ->
  Py.startswith name "." = false ->
  (forall aid, aid ∈ keys assets -> Py.contains aid name = false) ->
  removable (fs w) name = true ->
  fs (snd (sync_cycle cfg net w)) !! name = None.
Proof.
  intros Hfetch Hvisible Hids Hrem.
  destruct (get_assets_spec cfg net w) as (wg & Hg & _).
  rewrite Hg in Hfetch. cbn [fst] in Hfetch. injection Hfetch as Hcat.
  apply orphan_gone; [by rewrite Hcat| |done].
  rewrite Hcat. cbn [fst]. unfold orphan. rewrite Hvisible. cbn [negb andb].
  apply negb_true_iff. apply not_true_iff_false.
  intros (aid & Hin & Hc)%existsb_exists.
  apply list_elem_of_In in Hin. by rewrite (Hids aid Hin) in Hc.
Qed.

Lemma catalog_no_album : ALBUM_IDS cfg = [] -> catalog cfg net = ([], false).
Proof. unfold catalog. by intros ->. Qed.

(** X4. With no album configured ([ALBUM_IDS] empty, its default) the
    fetch step reports no error and an empty catalog, so a turn
    downloads nothing, removes every non-hidden file it can unlink, and
    keeps the hidden entries. *)
Theorem no_album_empties_the_directory w :
  ALBUM_IDS cfg = [] ->
  exists w',
    sync_cycle cfg net w = (Ok 0, w')
    /\ (forall name, Py.startswith name "." = false ->
          removable (fs w) name = true -> fs w' !! name = None)
    /\ (forall name, Py.startswith name "." = true ->
          fs w' !! name = fs w !! name).
Proof.
  intros Hnone. pose proof (catalog_no_album Hnone) as Hcat.
  destruct (sync_cycle_stages w) as (w3 & picked & w4 & Hpurge & _ & Hfs4 & Hsub & Hrun).
  rewrite Hcat in Hpurge, Hsub, Hrun. cbn [fst snd] in *.
  assert (Hfav : favorites_of cfg [] = []) by (unfold favorites_of; by destruct (ALBUMS_FAVORITES cfg)).
  assert (Hoth : others_of cfg [] = []) by (unfold others_of; by destruct (ALBUMS_FAVORITES cfg)).
  rewrite Hoth in Hsub. apply submseteq_nil_r in Hsub as ->.
  rewrite Hfav in Hrun. cbn [app download_all] in Hrun. rewrite ret_unfold in Hrun.
  rewrite bind_unfold in Hrun.
  destruct (enforce_limits_returns (DOWNLOAD_PATH cfg) (protected_of cfg []) w4)
    as (w6 & Hlim).
  pose proof (retention_effect (DOWNLOAD_PATH cfg) (protected_of cfg []) w4) as Heff.
  rewrite Hlim in Hrun, Heff. cbn [snd] in Heff.
  rewrite bind_unfold in Hrun. cbn [print] in Hrun. rewrite ret_unfold in Hrun.
  eexists. split; [exact Hrun|]. cbn [fs]. split.
  - intros name Hvisible Hrem.
    assert (H4 : fs w4 !! name = None).
    { rewrite Hfs4, Hpurge. unfold orphan. rewrite Hvisible, Hrem. done. }
    destruct (Heff name) as [->|[-> _]]; done.
  - intros name Hhidden.
    assert (H4 : fs w4 !! name = fs w !! name).
    { rewrite Hfs4, Hpurge. unfold orphan. by rewrite Hhidden. }
    destruct (Heff name) as [->|(_ & _ & n & Hn & Hc & _)]; [done|].
    unfold is_candidate in Hc. rewrite Hhidden in Hc.
    by rewrite andb_false_r in Hc.
Qed.

End Stages.

(** X5. The orphan test is a substring test: an entry whose name
    contains the id of any current asset, anywhere, is kept by the
    orphan loop and no removal of it is announced, whether or not it is
    the file derived from that asset. *)
Theorem id_in_name_survives_purge cfg ids listing w name aid :
  aid ∈ ids -> Py.contains aid name = true ->
  exists w' lines,
    purge_orphans cfg ids listing w = (Ok tt, w')
    /\ fs w' !! name = fs w !! name
    /\ stdout w' = stdout w ++ lines
    /\ LogRemovingOrphan name ∉ lines.
Proof.
  intros Hin Hc.
  assert (Hno : orphan ids name = false).
  { unfold orphan. apply andb_false_iff. right.
    apply negb_false_iff, existsb_exists. exists aid.
    split; [by apply list_elem_of_In|done]. }
  destruct (purge_orphans_spec cfg ids listing w)
    as (w' & lines & Hrun & _ & _ & Hout & Hlines & Hfs).
  exists w', lines. split; [done|]. split; [by rewrite Hfs, Hno|].
  split; [done|]. intros Hl.
  eapply Forall_forall in Hlines as (f & Heq & Horph); [|exact Hl].
  congruence.
Qed.

(** ** [get_filename]: the shape of the derived name *)

Lemma all_chars_forallb p s :
  Py.all_chars p s = forallb p (list_ascii_of_string s).
Proof. induction s as [|c r IH]; [done|]. cbn. by rewrite IH. Qed.

Lemma all_chars_app p a b :
  Py.all_chars p (a +:+ b) = Py.all_chars p a && Py.all_chars p b.
Proof.
  induction a as [|c r IH]; [done|].
  change (String c r +:+ b) with (String c (r +:+ b)).
  cbn [Py.all_chars]. by rewrite IH, andb_assoc.
Qed.

Lemma all_chars_reverse p s : Py.all_chars p (Py.reverse s) = Py.all_chars p s.
Proof.
  unfold Py.reverse. rewrite !all_chars_forallb, list_ascii_of_string_of_list_ascii.
  induction (list_ascii_of_string s) as [|c l IH]; [done|].
  cbn [rev forallb]. rewrite forallb_app, IH. cbn [forallb].
  rewrite andb_true_r. apply andb_comm.
Qed.

Lemma all_chars_lstrip p q s :
  Py.all_chars p s = true -> Py.all_chars p (Py.lstrip_with q s) = true.
Proof.
  induction s as [|c r IH]; [done|]. cbn [Py.lstrip_with].
  destruct (q c); [|done]. cbn [Py.all_chars].
  intros [_ H]%andb_true_iff. by apply IH.
Qed.

Lemma all_chars_rstrip p q s :
  Py.all_chars p s = true -> Py.all_chars p (Py.rstrip_with q s) = true.
Proof.
  intros H. unfold Py.rstrip_with.
  rewrite all_chars_reverse. apply all_chars_lstrip. by rewrite all_chars_reverse.
Qed.

Lemma all_chars_strip p s :
  Py.all_chars p s = true -> Py.all_chars p (Py.strip s) = true.
Proof. intros H. by apply all_chars_rstrip, all_chars_lstrip. Qed.

Lemma all_chars_keep p s : Py.all_chars p (Py.keep p s) = true.
Proof.
  induction s as [|c r IH]; [done|]. cbn [Py.keep].
  destruct (p c) eqn:E; [|done]. cbn [Py.all_chars]. by rewrite E, IH.
Qed.

Lemma all_chars_impl (p q : ascii -> bool) s :
  (forall c, p c = true -> q c = true) ->
  Py.all_chars p s = true -> Py.all_chars q s = true.
Proof.
  intros Hpq. induction s as [|c r IH]; [done|]. cbn [Py.all_chars].
  intros [Hc Hr]%andb_true_iff. by rewrite (Hpq c Hc), IH.
Qed.

(** The stem of the derived name: the sanitized base. *)
Definition stem (a : asset) : string :=
  Py.strip (Py.keep sanitized
              (fst (Py.splitext (default "img"%string (originalFileName a))))).

Definition extension (a : asset) : string :=
  snd (Py.splitext (default "img"%string (originalFileName a))).

Lemma get_filename_parts a :
  get_filename a = stem a +:+ "-" +:+ id a +:+ extension a.
Proof.
  unfold get_filename, stem, extension. by destruct (Py.splitext _).
Qed.

Lemma stem_sanitized a : Py.all_chars sanitized (stem a) = true.
Proof. apply all_chars_strip, all_chars_keep. Qed.

Lemma sanitized_not_dot c : sanitized c = true -> c <> "."%char.
Proof. intros H ->. by vm_compute in H. Qed.

Lemma sanitized_not_slash c : sanitized c = true -> c <> "/"%char.
Proof. intros H ->. by vm_compute in H. Qed.

Lemma derived_name_not_hidden a : Py.startswith (get_filename a) "." = false.
Proof.
  rewrite get_filename_parts. pose proof (stem_sanitized a) as Hs.
  unfold Py.startswith. destruct (stem a) as [|c r]; [done|].
  cbn [Py.all_chars] in Hs. apply andb_true_iff in Hs as [Hc _].
  change (String c r +:+ ?x) with (String c (r +:+ x)).
  cbn [String.prefix]. destruct (ascii_dec "." c) as [<-|]; [|done].
  by apply sanitized_not_dot in Hc.
Qed.

(** X6. The derived file name never starts with a dot, whatever the
    asset record.  So a downloaded file is never a hidden entry: the
    orphan loop examines it, and the retention step counts it as a
    candidate exactly when it is not protected. *)
Theorem get_filename_never_hidden a :
  Py.startswith (get_filename a) "." = false
  /\ (forall ids, orphan ids (get_filename a)
                  = negb (existsb (fun aid => Py.contains aid (get_filename a)) ids))
  /\ (forall protected content now,
        is_candidate protected (get_filename a) (fresh content now)
        = negb (bool_decide (get_filename a ∈ protected))).
Proof.
  pose proof (derived_name_not_hidden a) as H. split; [exact H|]. split.
  - intros ids. unfold orphan. by rewrite H.
  - intros protected content now. unfold is_candidate, is_regular, fresh.
    cbn [node_kind]. by rewrite H.
Qed.

(** Strings without a path separator. *)
Definition no_slash (s : string) : bool :=
  Py.all_chars (fun c => negb (Ascii.eqb c "/")) s.

Lemma rfind_from_bounds c s : forall i last,
  Py.rfind_from c s i last = last
  \/ i <= Py.rfind_from c s i last < i + Z.of_nat (String.length s).
Proof.
  induction s as [|d r IH]; intros i last; [by left|].
  cbn [Py.rfind_from String.length].
  destruct (IH (i + 1) (if Ascii.eqb d c then i else last)) as [->|H].
  - destruct (Ascii.eqb d c); [right; lia|by left].
  - right. lia.
Qed.

(** Past the index answered by [rfind] the character does not occur. *)
Lemma rfind_from_suffix c s : forall i last (j : nat),
  Py.rfind_from c s i last < i + Z.of_nat j ->
  Py.all_chars (fun d => negb (Ascii.eqb d c))
    (String.substring j (String.length s - j) s) = true.
Proof.
  induction s as [|d r IH]; intros i last j Hlt.
  - by destruct j.
  - cbn [Py.rfind_from] in Hlt. destruct j as [|j].
    + cbn [String.length Nat.sub String.substring Py.all_chars].
      destruct (Ascii.eqb d c) eqn:E.
      * destruct (rfind_from_bounds c r (i + 1) i); lia.
      * cbn [negb andb]. specialize (IH (i + 1) last 0%nat).
        rewrite Nat.sub_0_r in IH. apply IH. lia.
    + cbn [String.length Nat.sub String.substring].
      apply (IH (i + 1) (if Ascii.eqb d c then i else last) j). lia.
Qed.

Lemma extension_no_slash s : no_slash (snd (Py.splitext s)) = true.
Proof.
  unfold Py.splitext.
  destruct (_ && _) eqn:E; [|done]. cbn [snd].
  apply andb_true_iff in E as [Hlt%Z.ltb_lt _].
  unfold Py.slice, no_slash.
  destruct (rfind_from_bounds "/" s 0 (-1)) as [Hs|Hs];
    destruct (rfind_from_bounds "." s 0 (-1)) as [Hd|Hd];
    fold (Py.rfind "/" s) in *; fold (Py.rfind "." s) in *; try lia.
  all: replace (Z.to_nat (Z.of_nat (String.length s) - Py.rfind "." s))
         with (String.length s - Z.to_nat (Py.rfind "." s))%nat by lia.
  all: apply (rfind_from_suffix "/" s 0 (-1)); fold (Py.rfind "/" s); lia.
Qed.

(** X7. The derived file name holds no path separator unless the asset
    id does: the stem is sanitized and the extension starts after the
    last separator of the original name.  So the file is an entry of the
    download directory itself. *)
Theorem get_filename_single_component a :
  no_slash (id a) = true -> no_slash (get_filename a) = true.
Proof.
  intros Hid. rewrite get_filename_parts. unfold no_slash in *.
  rewrite !all_chars_app, Hid.
  rewrite (all_chars_impl sanitized _ (stem a)); [|  |apply stem_sanitized].
  - cbn [Py.all_chars andb]. apply extension_no_slash.
  - intros c Hc. apply negb_true_iff, Ascii.eqb_neq.
    by apply sanitized_not_slash.
Qed.

(** ** [download_asset]: what reaches the disk *)

Section Stored.

Context {pillow : PIL}.

Variables (cfg : config) (net : network).

(** X8. A download that fails leaves no file behind: when the derived
    file is absent and the transfer does not answer 200 (or the
    transport fails), [download_asset] answers [False] and changes
    nothing but standard output, where it adds the download line and
    one line telling the status or the error. *)
Theorem failed_download_writes_nothing a dir w :
  fs w !! get_filename a = None ->
  downloadable cfg net a = false ->
  exists line,
    download_asset cfg net a dir w
    = (Ok false,
       {| fs := fs w; clock := clock w; rng := rng w;
          stdout := stdout w ++ [LogDownloading (get_filename a); line];
          listing_seed := listing_seed w |})
    /\ line = match net (download_url cfg a) (API_KEY cfg) with
              | Response c _ _ _ => LogDownloadFailed (id a) c
              | TransportError => LogDownloadError (id a) ConnectionError
              end.
Proof.
  intros Hn Hd. unfold download_asset. rewrite bind_unfold.
  unfold os_path_exists, os_path_join. cbn [snd]. rewrite Hn.
  rewrite bool_decide_eq_false_2 by (by intros [? ?]).
  rewrite bind_unfold. cbn [print]. unfold try_except, requests_get.
  unfold downloadable in Hd. fold (download_url cfg a). rewrite bind_unfold.
  destruct (net (download_url cfg a) (API_KEY cfg)) as [c t b items|].
  - cbn [mret M_ret status_of]. rewrite Hd. rewrite bind_unfold.
    cbn [print mret M_ret fs clock rng stdout listing_seed].
    eexists. split; [|reflexivity]. by rewrite <- app_assoc.
  - cbn [raise is_Exception]. rewrite bind_unfold.
    cbn [print mret M_ret fs clock rng stdout listing_seed].
    eexists. split; [|reflexivity]. by rewrite <- app_assoc.
Qed.




End Stored.

(** ** What a turn guarantees *)

Section Guarantees.

Context {pillow : PIL}.

Variables (cfg : config) (net : network).









Lemma favorites_others_perm assets :
  favorites_of cfg assets ++ others_of cfg assets ≡ₚ values assets.
Proof.
  unfold favorites_of, others_of. destruct (ALBUMS_FAVORITES cfg); [|done].
  induction (values assets) as [|a l IH]; [done|].
  rewrite !filter_cons.
  destruct (decide (isFavorite a = true)) as [Ht|Hf].
  - rewrite decide_False by congruence. cbn [app]. by rewrite IH.
  - rewrite decide_True by (by destruct (isFavorite a)).
    rewrite <- Permutation_middle. by rewrite IH.
Qed.

(** X13. Step 1 always answers a selection and leaves the directory
    alone.  The selection starts with every favourite, holds no asset
    more often than the catalog does, and has, beside the favourites,
    [RANDOM_SELECT] of the other assets when that setting is positive
    and below their number, and all of them otherwise. *)
Theorem selection_is_within_the_catalog assets w :
  exists picked w',
    select_assets cfg assets w = (Ok (favorites_of cfg assets ++ picked), w')
    /\ fs w' = fs w
    /\ favorites_of cfg assets ++ picked ⊆+ values assets
    /\ Z.of_nat (length picked)
       = (if (0 <? RANDOM_SELECT cfg)
             && (RANDOM_SELECT cfg <? Z.of_nat (length (others_of cfg assets)))
          then RANDOM_SELECT cfg
          else Z.of_nat (length (others_of cfg assets))).
Proof.
  destruct (select_assets_spec cfg assets w)
    as (picked & w' & Hrun & Hfs & _ & _ & Hsub & Hlen).
  exists picked, w'. split; [done|]. split; [done|]. split.
  - rewrite <- favorites_others_perm. by apply submseteq_app.
  - rewrite Hlen. unfold sampling.
    destruct (0 <? RANDOM_SELECT cfg) eqn:H0; cbn [andb]; [|done].
    destruct (RANDOM_SELECT cfg <? _); [|done].
    apply Z.ltb_lt in H0. lia.
Qed.

End Guarantees.

(** ** [enforce_limits]: what it spares and what it restores *)

(** X14. The retention step never modifies an entry and never removes a
    directory, a hidden entry or a file it cannot unlink: such an entry
    is found unchanged after the step, whatever the limits. *)
Theorem retention_spares_non_candidates cfg dir protected w name n :
  fs w !! name = Some n ->
  is_regular n = false \/ Py.startswith name "." = true \/ locked n = true ->
  fs (snd (enforce_limits cfg dir protected w)) !! name = Some n.
Proof.
  intros Hn Hwhy.
  destruct (retention_effect cfg dir protected w name)
    as [->|(_ & _ & m & Hm & Hc & Hl)]; [done|].
  exfalso. rewrite Hn in Hm. injection Hm as <-.
  unfold is_candidate in Hc.
  apply andb_true_iff in Hc as [Hc _]. apply andb_true_iff in Hc as [Hreg Hvis].
  destruct Hwhy as [H|[H|H]]; [congruence| |congruence].
  rewrite H in Hvis. discriminate.
Qed.

Definition candidate_count (dir : string) (protected : gset string)
    (f : gmap string node) : nat :=
  length (candidates dir protected f (elements (dom f))).

Lemma candidate_count_delete dir protected f name n :
  f !! name = Some n ->
  candidate_count dir protected f
  = (candidate_count dir protected (delete name f)
     + (if is_candidate protected name n then 1 else 0))%nat.
Proof.
  intros Hn. unfold candidate_count.
  assert (Hperm : elements (dom f) ≡ₚ name :: elements (dom (delete name f))).
  { rewrite <- (insert_delete_id f name n) at 1 by done.
    rewrite dom_insert_L. apply elements_union_singleton.
    rewrite dom_delete_L. intros [_ Hx]%elem_of_difference.
    apply Hx. by apply elem_of_singleton. }
  rewrite (Permutation_length (candidates_perm dir protected f _ _ Hperm)).
  cbn [candidates]. rewrite Hn.
  assert (Hnot : name ∉ elements (dom (delete name f))).
  { rewrite elem_of_elements, dom_delete_L. intros [_ Hx]%elem_of_difference.
    apply Hx. by apply elem_of_singleton. }
  rewrite (candidates_delete_notin _ _ _ _ _ Hnot).
  destruct (is_candidate protected name n); cbn [length]; lia.
Qed.

(** Removals that all succeed take one candidate each. *)
Lemma evict_count dir protected l : forall f total,
  Forall (listed dir protected f) l -> NoDup (map entry_name l) ->
  Forall (fun e => forall n, f !! entry_name e = Some n -> locked n = false) l ->
  (candidate_count dir protected (fst (evict f l total)) + length l)%nat
  = candidate_count dir protected f.
Proof.
  induction l as [|e l IH]; intros f total Hl Hnd Hun; [cbn; lia|].
  apply Forall_cons in Hl as [He Hl]. cbn [map] in Hnd.
  apply NoDup_cons in Hnd as [Hnot Hnd].
  apply Forall_cons in Hun as [Hue Hun]. cbn [evict length].
  destruct He as (n & Hn & Hc & He).
  assert (Hr : removable f (entry_name e) = true).
  { unfold removable. rewrite Hn, (Hue n Hn).
    unfold is_candidate in Hc.
    apply andb_true_iff in Hc as [Hc _]. apply andb_true_iff in Hc as [Hc _].
    by rewrite Hc. }
  rewrite Hr, (candidate_count_delete dir protected f _ n Hn), Hc.
  rewrite <- (IH (delete (entry_name e) f) (total - e_size e)); [lia| |done|].
  - apply Forall_forall. intros x Hx.
    apply listed_delete; [by eapply Forall_forall in Hl|].
    intros Heq. apply Hnot. rewrite <- Heq. by apply list_elem_of_fmap_2.
  - apply Forall_forall. intros x Hx m Hm.
    apply lookup_delete_Some in Hm as [_ Hm].
    eapply Forall_forall in Hun; eauto.
Qed.

Lemma sum_sizes_perm l1 l2 : l1 ≡ₚ l2 -> sum_sizes l1 = sum_sizes l2.
Proof.
  unfold sum_sizes. induction 1 as [|x l l' _ IH|x y l|l l' l'' _ IH1 _ IH2];
    cbn [foldr]; lia.
Qed.

Lemma retention_off_limits cfg dir protected f :
  retention_enabled cfg = false -> limits_respected cfg dir protected f.
Proof.
  unfold retention_enabled. intros [H1 H2]%negb_false_iff%andb_true_iff.
  apply Z.leb_le in H1. apply Qle_bool_iff in H2. split.
  - intros H. lia.
  - intros H. exfalso. by apply (Qlt_not_le _ _ H).
Qed.

(** X15. The retention step restores both limits when it can remove
    what it selects: if no candidate is locked, then after the step the
    number of unprotected files is within [MAX_IMAGES] and their total
    size within [MAX_LOCAL_GB], each when set; and a second run of the
    step on the directory it leaves removes nothing. *)
Theorem retention_restores_limits cfg dir protected w :
  (forall name n, fs w !! name = Some n ->
                  is_candidate protected name n = true -> locked n = false) ->
  exists w',
    enforce_limits cfg dir protected w = (Ok tt, w')
    /\ limits_respected cfg dir protected (fs w')
    /\ forall w2, fs w2 = fs w' ->
         fs (snd (enforce_limits cfg dir protected w2)) = fs w'.
Proof.
  intros Hun.
  assert (Hagain : forall w', limits_respected cfg dir protected (fs w') ->
            forall w2, fs w2 = fs w' ->
              fs (snd (enforce_limits cfg dir protected w2)) = fs w').
  { intros w' Hlim w2 Hfs2. rewrite <- Hfs2 in Hlim.
    destruct (enforce_limits_within_limits cfg dir protected w2 Hlim)
      as (w3 & -> & Hfs3 & _). cbn [snd]. congruence. }
  destruct (retention_enabled cfg) eqn:Hen.
  2:{ exists w. split; [by apply enforce_limits_disabled|].
      split; [by apply retention_off_limits|].
      apply Hagain. by apply retention_off_limits. }
  destruct (enforce_limits_spec cfg dir protected w Hen)
    as (j & w' & Hj & Hrun & Hfs & _ & _ & _ & Hstop).
  pose proof (running_total_on_disk dir protected (fs w) (listing w)
                (listing_perm w) j) as Hdisk.
  set (cands := candidates dir protected (fs w) (listing w)) in *.
  set (sorted := sort_by_mtime cands) in *.
  set (gone := take j sorted) in *.
  assert (Hgone_listed : Forall (listed dir protected (fs w)) gone)
    by apply sorted_listed.
  assert (Hgone_nd : NoDup (map entry_name gone))
    by apply sorted_names_NoDup, listing_perm.
  assert (Hgone_un : Forall (fun e => forall n,
            fs w !! entry_name e = Some n -> locked n = false) gone).
  { apply Forall_forall. intros e He n Hn.
    eapply Forall_forall in Hgone_listed as (m & Hm & Hcm & _); [|exact He].
    apply (Hun (entry_name e)); congruence. }
  pose proof (evict_count dir protected gone (fs w) (sum_sizes cands)
                Hgone_listed Hgone_nd Hgone_un) as Hcount.
  destruct (evict_all_removable dir protected gone (fs w) (sum_sizes cands)
              Hgone_listed Hgone_nd Hgone_un) as [_ Hsum].
  rewrite <- Hfs in Hcount, Hdisk.
  assert (Hlen : candidate_count dir protected (fs w) = length sorted).
  { unfold candidate_count, sorted. rewrite sort_by_mtime_length.
    symmetry. apply Permutation_length, candidates_perm, listing_perm. }
  assert (Hgone_len : length gone = j).
  { unfold gone. rewrite length_take. lia. }
  assert (Hlim : limits_respected cfg dir protected (fs w')).
  { split.
    - intros Hmax. fold (candidate_count dir protected (fs w')).
      destruct Hj as [Hj _]. unfold count_stop in Hj.
      destruct ((0 <? MAX_IMAGES cfg)
                && (MAX_IMAGES cfg <? Z.of_nat (length sorted))) eqn:E.
      + lia.
      + apply andb_false_iff in E as [E|E]; apply Z.ltb_ge in E; lia.
    - intros Hgb. rewrite <- Hdisk.
      destruct Hstop as [->|Hstop]; [|by apply over_budget_false].
      rewrite Hsum. unfold gone. rewrite firstn_all.
      rewrite (sum_sizes_perm sorted cands (sort_by_mtime_perm cands)), Z.sub_diag. unfold max_bytes.
      apply Qlt_le_weak.
      repeat (apply Qmult_lt_0_compat; [|done]). exact Hgb. }
  exists w'. split; [done|]. split; [done|]. by apply Hagain.
Qed.

Lemma count_pass_idle cfg files total deleted w :
  (0 <? MAX_IMAGES cfg) && (MAX_IMAGES cfg <? Z.of_nat (length files)) = false ->
  count_pass cfg files total deleted w = (Ok (files, total, deleted), w).
Proof. intros H. destruct files; cbn [count_pass]; by rewrite H. Qed.

Lemma size_pass_idle cfg files total deleted w :
  over_budget cfg total = false ->
  size_pass cfg files total deleted w = (Ok (files, total, deleted), w).
Proof.
  unfold over_budget. intros H. destruct files; cbn [size_pass]; [done|].
  by rewrite H.
Qed.

(** X16. Within both limits the retention step is silent: it removes
    nothing and prints nothing, so the world it leaves is the one it
    found. *)
Theorem retention_within_limits_is_silent cfg dir protected w :
  limits_respected cfg dir protected (fs w) ->
  enforce_limits cfg dir protected w = (Ok tt, w).
Proof.
  intros [Hcount Hsize]. unfold enforce_limits.
  destruct ((MAX_IMAGES cfg <=? 0) && Qle_bool (MAX_LOCAL_GB cfg) 0); [done|].
  rewrite bind_unfold. cbn [os_listdir]. rewrite bind_unfold, gather_spec.
  cbn [app Z.add]. rewrite bind_unfold.
  set (cands := candidates dir protected (fs w) (listing w)).
  assert (Hlen : length (sort_by_mtime cands)
                 = length (candidates dir protected (fs w)
                             (elements (dom (fs w))))).
  { rewrite sort_by_mtime_length.
    apply Permutation_length, candidates_perm, listing_perm. }
  assert (Htotal : sum_sizes cands = unprotected_total dir protected (fs w)).
  { apply sum_sizes_candidates_perm, listing_perm. }
  rewrite count_pass_idle.
  2:{ rewrite Hlen. apply andb_false_iff.
      destruct (0 <? MAX_IMAGES cfg) eqn:E; [right|by left].
      apply Z.ltb_lt in E. apply Z.ltb_ge. by apply Hcount. }
  rewrite bind_unfold, size_pass_idle; [done|].
  rewrite Htotal. unfold over_budget. apply andb_false_iff.
  destruct (Qle_bool (MAX_LOCAL_GB cfg) 0) eqn:E; [by left|right].
  apply negb_false_iff, Qle_bool_iff, Hsize.
  apply Qnot_le_lt. intros H. apply Qle_bool_iff in H. congruence.
Qed.

(** ** The loop and the start-up *)

Section Service.

Context {pillow : PIL}.

Variables (cfg : config) (net : network).


End Service.

(** The last character of a string. *)
Definition last_char (s : string) : option ascii :=
  last (list_ascii_of_string s).

Lemma lstrip_with_head p s :
  match Py.lstrip_with p s with
  | String c _ => p c = false
  | EmptyString => True
  end.
Proof.
  induction s as [|c r IH]; [done|]. cbn [Py.lstrip_with].
  by destruct (p c) eqn:E.
Qed.

Lemma last_rev {A : Type} (l : list A) : last (rev l) = head l.
Proof. destruct l as [|x l]; [done|]. cbn [rev]. by rewrite last_snoc. Qed.

Lemma rstrip_with_last p s c :
  last_char (Py.rstrip_with p s) = Some c -> p c = false.
Proof.
  unfold last_char, Py.rstrip_with, Py.reverse at 1.
  rewrite list_ascii_of_string_of_list_ascii, last_rev.
  pose proof (lstrip_with_head p (Py.reverse s)) as H.
  destruct (Py.lstrip_with p (Py.reverse s)) as [|d r]; [done|].
  cbn. by intros [= <-].
Qed.

Lemma strip_nonempty_ne s : nonempty s = true -> s <> EmptyString.
Proof. by destruct s. Qed.

Section Settings.

Context {pillow : PIL}.

Variable py_float : string -> option Q.

(** X18. What start-up makes of the settings: [IMMICH_URL] never ends
    with a slash, so the request URLs have one slash before [api];
    [ALBUM_IDS] holds no empty entry, so a blank or unset variable, or
    a stray comma, names no album; the favourites are protected exactly
    when [ALBUMS_FAVORITES] reads [true] in any letter case. *)
Theorem load_config_normalizes environ cfg :
  load_config py_float environ = Ok cfg ->
  last_char (IMMICH_URL cfg) <> Some "/"%char
  /\ Forall (fun album => album <> EmptyString) (ALBUM_IDS cfg)
  /\ (getenv environ "ALBUM_IDS" "" = EmptyString -> ALBUM_IDS cfg = [])
  /\ (ALBUMS_FAVORITES cfg = true <->
      Py.lower (getenv environ "ALBUMS_FAVORITES" "True") = "true"%string).
Proof.
  unfold load_config. intros Hload.
  destruct (int_setting environ "SYNC_INTERVAL" 600) as [si|]; [|done].
  destruct (int_setting environ "RANDOM_SELECT" 0) as [rs|]; [|done].
  destruct (int_setting environ "MAX_IMAGES" 0) as [mi|]; [|done].
  destruct (float_setting py_float environ "MAX_LOCAL_GB" 0) as [gb|]; [|done].
  cbn in Hload. injection Hload as <-.
  cbn [IMMICH_URL ALBUM_IDS ALBUMS_FAVORITES]. split; [|split; [|split]].
  - intros Hlast. apply rstrip_with_last in Hlast. by vm_compute in Hlast.
  - apply Forall_forall. intros album Hin.
    apply (list_elem_of_fmap_1 Py.strip) in Hin as (x & -> & Hx).
    apply list_elem_of_filter in Hx as [Hx _]. by apply strip_nonempty_ne.
  - by intros ->.
  - apply String.eqb_eq.
Qed.


End Settings.

(** ** What a turn leaves in the directory *)

Section Directory.

Context {pillow : PIL}.

Variables (cfg : config) (net : network).

(** X20. A turn leaves hidden entries exactly as they are, and never
    removes an entry it cannot unlink (a directory, a locked file): such
    an entry keeps its kind, content and lock, and only its
    modification time may change.  This holds however the turn ends. *)
Theorem turn_spares_hidden_and_unremovable w name n :
  fs w !! name = Some n ->
  let w' := snd (sync_cycle cfg net w) in
  (Py.startswith name "." = true -> fs w' !! name = Some n)
  /\ (removable (fs w) name = false ->
      exists n', fs w' !! name = Some n' /\ same_modulo_mtime n n').
Proof.
  intros Hn w'. subst w'.
  destruct (sync_cycle_stages cfg net w)
    as (w3 & picked & w4 & Hpurge & _ & Hfs4 & Hsub & ->).
  set (assets := fst (catalog cfg net)) in *.
  set (sel := favorites_of cfg assets ++ picked).
  pose proof (retention_effect cfg (DOWNLOAD_PATH cfg) (protected_of cfg assets))
    as Heff.
  pose proof (enforce_limits_returns cfg (DOWNLOAD_PATH cfg)
                (protected_of cfg assets)) as Hret.
  split.
  - intros Hhidden.
    assert (H4 : fs w4 !! name = Some n).
    { rewrite Hfs4. destruct (snd (catalog cfg net)); [by rewrite Hpurge|].
      rewrite Hpurge. unfold orphan. by rewrite Hhidden. }
    pose proof (download_all_other cfg net sel name 0 w4) as Hdl.
    rewrite H4 in Hdl.
    assert (Hne : forall a, a ∈ sel -> name <> get_filename a).
    { intros a _ ->. by rewrite derived_name_not_hidden in Hhidden. }
    specialize (Hdl Hne).
    destruct (download_all cfg net sel 0 w4) as [[k|e] w5]; cbn [snd] in *;
      [|exact Hdl].
    rewrite bind_unfold. specialize (Heff w5 name).
    destruct (Hret w5) as (w6 & Hlim). rewrite Hlim in *. cbn [snd] in Heff.
    rewrite bind_unfold. cbn [print]. rewrite ret_unfold. cbn [snd fs].
    destruct Heff as [->|(_ & _ & m & _ & Hc & _)]; [done|].
    unfold is_candidate in Hc. rewrite Hhidden in Hc.
    by rewrite andb_false_r in Hc.
  - intros Hrem.
    assert (H4 : fs w4 !! name = Some n).
    { rewrite Hfs4. destruct (snd (catalog cfg net)); [by rewrite Hpurge|].
      by rewrite Hpurge, Hrem, andb_false_r. }
    pose proof (download_all_extends cfg net sel 0 w4 name) as Hext.
    rewrite H4 in Hext. destruct Hext as (n5 & Hn5 & Hsame).
    destruct (download_all cfg net sel 0 w4) as [[k|e] w5]; cbn [snd] in *;
      [|by exists n5].
    rewrite bind_unfold. specialize (Heff w5 name).
    destruct (Hret w5) as (w6 & Hlim). rewrite Hlim in *. cbn [snd] in Heff.
    rewrite bind_unfold. cbn [print]. rewrite ret_unfold. cbn [snd fs].
    destruct Heff as [->|(_ & _ & m & Hm & Hc & Hl)]; [by exists n5|].
    exfalso. rewrite Hn5 in Hm. injection Hm as <-.
    destruct Hsame as (Hkind & _ & Hlock).
    unfold removable in Hrem. rewrite Hn in Hrem.
    unfold is_candidate in Hc.
    apply andb_true_iff in Hc as [Hc _]. apply andb_true_iff in Hc as [Hreg _].
    unfold is_regular in *. rewrite Hkind in Hreg. rewrite Hlock in Hl.
    by rewrite Hreg, Hl in Hrem.
Qed.

(** X21. A turn creates and re-stamps derived files only: an entry
    found after the turn under a name that is not derived from an asset
    of the catalog was there before the turn, the same in every
    respect. *)
Theorem turn_writes_derived_files_only w name n' :
  (forall a, a ∈ values (fst (catalog cfg net)) -> name <> get_filename a) ->
  fs (snd (sync_cycle cfg net w)) !! name = Some n' ->
  fs w !! name = Some n'.
Proof.
  intros Hother.
  destruct (sync_cycle_stages cfg net w)
    as (w3 & picked & w4 & Hpurge & _ & Hfs4 & Hsub & ->).
  set (assets := fst (catalog cfg net)) in *.
  set (sel := favorites_of cfg assets ++ picked).
  assert (H3 : forall n, fs w4 !! name = Some n -> fs w !! name = Some n).
  { intros n. rewrite Hfs4.
    destruct (snd (catalog cfg net)); [by rewrite Hpurge|].
    rewrite Hpurge. by destruct (_ && _). }
  pose proof (download_all_other cfg net sel name 0 w4) as Hdl.
  assert (Hne : forall a, a ∈ sel -> name <> get_filename a).
  { intros a Ha. apply Hother. apply elem_of_app in Ha as [Ha|Ha].
    - by apply (favorites_in_values cfg).
    - eapply (others_in_values cfg), elem_of_submseteq; done. }
  specialize (Hdl Hne).
  destruct (download_all cfg net sel 0 w4) as [[k|e] w5]; cbn [snd] in *.
  2:{ rewrite Hdl. apply H3. }
  rewrite bind_unfold.
  pose proof (retention_effect cfg (DOWNLOAD_PATH cfg) (protected_of cfg assets)
                w5 name) as Heff.
  destruct (enforce_limits_returns cfg (DOWNLOAD_PATH cfg)
              (protected_of cfg assets) w5) as (w6 & Hlim).
  rewrite Hlim in *. cbn [snd] in Heff.
  rewrite bind_unfold. cbn [print]. rewrite ret_unfold. cbn [snd fs].
  destruct Heff as [->|[-> _]]; [|done]. rewrite Hdl. apply H3.
Qed.


End Directory.

(* ================================================================= *)
(** * Runs on concrete data *)

(** ** A small Pillow

    Pictures are the history of the calls that made them.  A file
    decodes when its first two bytes, its width and height, are not
    zero; the stored orientation is the upright one. *)

Module Toy.

Inductive picture : Type :=
| Decoded (w h : Z) (payload : bytes)
| Resized (p : picture) (w h : Z) (f : resampling)
| Blurred (p : picture) (radius : Z)
| Cropped (p : picture) (x0 y0 x1 y1 : Z)
| Pasted (bg fg : picture) (x y : Z).

Fixpoint size (p : picture) : Z * Z :=
  match p with
  | Decoded w h _ => (w, h)
  | Resized _ w h _ => (w, h)
  | Blurred q _ => size q
  | Cropped _ x0 y0 x1 y1 => (x1 - x0, y1 - y0)
  | Pasted bg _ _ _ => size bg
  end.

Definition byte_value (b : Byte.byte) : Z := Z.of_N (Byte.to_N b).

Definition decode (content : bytes) : string + picture :=
  match content with
  | bw :: bh :: payload =>
      if (0 <? byte_value bw) && (0 <? byte_value bh)
      then inr (Decoded (byte_value bw) (byte_value bh) payload)
      else inl "cannot identify image file"%string
  | _ => inl "cannot identify image file"%string
  end.

Definition size_eqb (a b : Z * Z) : bool :=
  (fst a =? fst b) && (snd a =? snd b).

Definition scale (p : picture) (s : Z * Z) (f : resampling)
    : string + picture :=
  if size_eqb (size p) s then inr p
  else if (fst s <? 1) || (snd s <? 1)
       then inl "height and width must be > 0"%string
       else inr (Resized p (fst s) (snd s) f).

Definition cut (p : picture) (b : box) : string + picture :=
  match rounded_box b with
  | Ok (x0, y0, x1, y1) =>
      if (x1 <? x0) || (y1 <? y0)
      then inl "Coordinate 'right' is less than 'left'"%string
      else inr (Cropped p x0 y0 x1 y1)
  | Raise _ => inl "cannot convert float to integer"%string
  end.

Definition byte_of (z : Z) : Byte.byte :=
  match Byte.of_N (Z.to_N (z mod 256)) with
  | Some b => b
  | None => Byte.x00
  end.

Definition encode (p : picture) (fmt : string) (quality : Z) : string + bytes :=
  inr [byte_of (fst (size p)); byte_of (snd (size p))].

Lemma size_eqb_eq a b : size_eqb a b = true <-> a = b.
Proof.
  destruct a as [a1 a2], b as [b1 b2]. unfold size_eqb. simpl.
  rewrite andb_true_iff, !Z.eqb_eq. split; [intros [-> ->]|intros [= -> ->]]; done.
Qed.

Lemma decode_size b i :
  decode b = inr i -> 0 < fst (size i) /\ 0 < snd (size i).
Proof.
  unfold decode. destruct b as [|bw [|bh payload]]; try done.
  destruct ((0 <? byte_value bw) && (0 <? byte_value bh)) eqn:E; [|done].
  intros [= <-]. apply andb_true_iff in E as [E1 E2]. simpl.
  split; by apply Z.ltb_lt.
Qed.

Lemma upright_size (i j : picture) :
  (inr i : string + picture) = inr j ->
  size j = size i \/ size j = (snd (size i), fst (size i)).
Proof. intros [= <-]. by left. Qed.

Lemma scale_rejects i w h f :
  w < 1 \/ h < 1 -> size i <> (w, h) -> exists msg, scale i (w, h) f = inl msg.
Proof.
  intros Hbad Hne. unfold scale.
  destruct (size_eqb (size i) (w, h)) eqn:E.
  - apply size_eqb_eq in E. done.
  - simpl. assert ((w <? 1) || (h <? 1) = true) as ->.
    { apply orb_true_iff. destruct Hbad; [left|right]; by apply Z.ltb_lt. }
    by eexists.
Qed.

Lemma scale_size i s f j : scale i s f = inr j -> size j = s.
Proof.
  unfold scale. destruct (size_eqb (size i) s) eqn:E.
  - apply size_eqb_eq in E. by intros [= <-].
  - destruct ((fst s <? 1) || (snd s <? 1)); [done|].
    intros [= <-]. by destruct s.
Qed.

Lemma blur_size (i : picture) (r : Z) j :
  (inr (Blurred i r) : string + picture) = inr j -> size j = size i.
Proof. by intros [= <-]. Qed.

Lemma cut_size i b j x0 y0 x1 y1 :
  cut i b = inr j -> rounded_box b = Ok (x0, y0, x1, y1) ->
  size j = (x1 - x0, y1 - y0).
Proof.
  unfold cut. intros H Hb. rewrite Hb in H.
  destruct ((x1 <? x0) || (y1 <? y0)); [done|]. by injection H as <-.
Qed.

Lemma pasted_size (bg fg : picture) (at_ : Z * Z) j :
  (inr (Pasted bg fg (fst at_) (snd at_)) : string + picture) = inr j ->
  size j = size bg.
Proof. by intros [= <-]. Qed.

#[export] Instance pillow : PIL := {|
  image := picture;
  Image_open := decode;
  img_size := size;
  img_format := fun _ => None;
  exif_orientation := fun _ => None;
  exif_transpose := fun p => inr p;
  resize := scale;
  gaussian_blur := fun p r => inr (Blurred p r);
  crop := cut;
  paste := fun bg fg at_ => inr (Pasted bg fg (fst at_) (snd at_));
  save := encode;
  open_size := decode_size;
  exif_transpose_size := upright_size;
  resize_rejects := scale_rejects;
  resize_size := scale_size;
  gaussian_blur_size := blur_size;
  crop_size := cut_size;
  paste_size := pasted_size
|}.

#[export] Instance total : PILTotal pillow.
Proof.
  split.
  - intros i. by eexists.
  - intros i w h f Hw Hh. simpl. unfold scale.
    destruct (size_eqb (size i) (w, h)); [by eexists|]. simpl.
    assert ((w <? 1) || (h <? 1) = false) as ->.
    { apply orb_false_iff. split; apply Z.ltb_ge; lia. }
    by eexists.
  - intros i r. by eexists.
  - intros i b x0 y0 x1 y1 Hb Hx Hy. simpl. unfold cut. rewrite Hb.
    assert ((x1 <? x0) || (y1 <? y0) = false) as ->.
    { apply orb_false_iff. split; apply Z.ltb_ge; lia. }
    by eexists.
  - intros bg fg at_. by eexists.
  - intros i fmt q. by eexists.
Qed.

End Toy.

#[local] Existing Instance Toy.pillow.
#[local] Existing Instance Toy.total.

(** ** Fixtures *)

Definition file (mtime : Z) (content : bytes) (is_locked : bool) : node :=
  {| node_kind := RegularFile; st_mtime := mtime; data := content;
     locked := is_locked |}.

Definition start (f : gmap string node) : world :=
  {| fs := f; clock := 1000; rng := [O; 1%nat]; stdout := [];
     listing_seed := [] |}.

Definition settings (max_images : Z) (max_local_gb : Q) (random_select : Z)
    : config :=
  {| IMMICH_URL := "http://immich"; API_KEY := "key"; ALBUM_IDS := ["alb"];
     ALBUMS_FAVORITES := true; DOWNLOAD_PATH := "./wallpapers";
     SYNC_INTERVAL := 600; RANDOM_SELECT := random_select;
     MAX_IMAGES := max_images; MAX_LOCAL_GB := max_local_gb;
     TARGET_SIZE := "" |}.

Definition sunset : asset :=
  {| id := "1"; originalFileName := Some "sunset.jpg"%string;
     isFavorite := false |}.

Definition harbour : asset :=
  {| id := "2"; originalFileName := Some "harbour.jpg"%string;
     isFavorite := false |}.

(** A server with one album of two assets. *)
Definition online : network := fun url _ =>
  if String.eqb url "http://immich/api/albums/alb"
  then Response 200 "" [] (Some [sunset; harbour])
  else if String.eqb url "http://immich/api/assets/1/original"
  then Response 200 "" [Byte.x01; Byte.x02] None
  else if String.eqb url "http://immich/api/assets/2/original"
  then Response 200 "" [Byte.x03] None
  else Response 404 "Not found" [] None.

(** A server that cannot be reached. *)
Definition offline : network := fun _ _ => TransportError.

Definition two_files : gmap string node :=
  {[ "old.jpg"%string := file 1 [Byte.x01] false;
     "new.jpg"%string := file 2 [Byte.x02] false ]}.

(** Three files, the oldest of which cannot be removed. *)
Definition three_files (oldest_locked : bool) : gmap string node :=
  {[ "a.jpg"%string := file 1 [Byte.x01] oldest_locked;
     "b.jpg"%string := file 2 [Byte.x02; Byte.x02] false;
     "c.jpg"%string := file 3 [Byte.x03; Byte.x03; Byte.x03] false ]}.

(** ** The helpers on known values *)

Example splitext_plain : Py.splitext "My:Photo*.jpg" = ("My:Photo*", ".jpg")%string.
Proof. reflexivity. Qed.

Example splitext_hidden : Py.splitext ".bashrc" = (".bashrc", "")%string.
Proof. reflexivity. Qed.

Example splitext_directory : Py.splitext "a.b/c" = ("a.b/c", "")%string.
Proof. reflexivity. Qed.

Example split_size : Py.split "x" (Py.lower "200X100") = ["200"; "100"]%string.
Proof. reflexivity. Qed.

Example int_examples :
  Py.int " 12 " = Some 12 /\ Py.int "-7" = Some (-7)
  /\ Py.int "1_000" = Some 1000 /\ Py.int "" = None
  /\ Py.int "1__0" = None /\ Py.int "12a" = None.
Proof. repeat split; reflexivity. Qed.

Example get_filename_sanitizes :
  get_filename {| id := "abc123"; originalFileName := Some "My:Photo*.jpg"%string;
                  isFavorite := false |} = "MyPhoto-abc123.jpg"%string.
Proof. reflexivity. Qed.

Example get_filename_default :
  get_filename {| id := "7"; originalFileName := None; isFavorite := true |}
  = "img-7"%string.
Proof. reflexivity. Qed.

Example sort_is_stable :
  map e_path
    (sort_by_mtime
       [ {| e_path := ("d", "x"); e_mtime := 2; e_size := 0 |};
         {| e_path := ("d", "y"); e_mtime := 1; e_size := 0 |};
         {| e_path := ("d", "z"); e_mtime := 2; e_size := 0 |} ])
  = [("d", "y"); ("d", "x"); ("d", "z")]%string.
Proof. reflexivity. Qed.

Example round_ties_to_even :
  PyFloat.round (PrimFloat.div (PyFloat.of_Z 1) (PyFloat.of_Z 2)) = Ok 0
  /\ PyFloat.round (PrimFloat.div (PyFloat.of_Z 3) (PyFloat.of_Z 2)) = Ok 2
  /\ PyFloat.round (PrimFloat.div (PyFloat.of_Z 5) (PyFloat.of_Z 2)) = Ok 2
  /\ PyFloat.to_int (PrimFloat.div (PyFloat.of_Z (-7)) (PyFloat.of_Z 2)) = Ok (-3).
Proof. repeat split; vm_compute; reflexivity. Qed.

(** ** C1 on a run *)



(** ** C2 on a run *)

Definition no_float : string -> option Q := fun _ => None.



(** ** C3 on a run *)

(** C3 as stated fails: with [RANDOM_SELECT = 1] and two assets, the
    first turn draws and downloads one asset and the second turn, on an
    unchanged catalog and with no limit set, draws and downloads the
    other one. *)
Lemma sampling_downloads_again :
  let cfg := settings 0 0 1 in
  let w1 := snd (sync_cycle cfg online (start ∅)) in
  let w2 := snd (sync_cycle cfg online w1) in
  fst (sync_cycle cfg online (start ∅)) = Ok 1
  /\ fs w1 !! "harbour-2.jpg"%string = None
  /\ fst (sync_cycle cfg online w1) = Ok 1
  /\ fs w2 !! "harbour-2.jpg"%string = Some (file 1000 [Byte.x03] false).
Proof. repeat split; vm_compute; reflexivity. Qed.

Lemma second_turn_is_idle_witness :
  let cfg := settings 5 1 0 in
  let m1 := snd (sync_fetch_and_download cfg online (start two_files)) in
  exists w1,
    sync_cycle cfg online (start two_files) = (Ok 2, w1)
    /\ forall w1', fs w1' = fs w1 ->
         exists w2, sync_cycle cfg online w1' = (Ok 0, w2) /\ refreshed w1 w2.
Proof.
  intros cfg m1.
  apply (second_turn_is_idle cfg online (start two_files) 2 ∅ m1).
  - left. vm_compute. discriminate.
  - vm_compute. reflexivity.
  - split.
    + intros _. vm_compute. discriminate.
    + intros _. vm_compute. discriminate.
Defined.

(** ** C4 on a run *)

(** The failing input of C4: the derived file of the asset is in the
    directory and may not be re-stamped. *)
Lemma download_asset_on_locked_file :
  let w := start {[ "sunset-1.jpg"%string := file 1 [Byte.x01] true ]} in
  download_asset (settings 0 0 0) online sunset "./wallpapers" w
  = (Raise PermissionError, w).
Proof.
  intros w.
  exact (download_asset_raises_on_locked_file (settings 0 0 0) online sunset
           "./wallpapers" w).
Defined.

(** The exception ends the turn, and with it the process: the second
    asset is never looked at. *)
Example locked_file_ends_the_turn :
  let w := start {[ "sunset-1.jpg"%string := file 1 [Byte.x01] true ]} in
  let out := sync_cycle (settings 0 0 0) online w in
  fst out = Raise PermissionError
  /\ fs (snd out) !! "harbour-2.jpg"%string = None.
Proof. split; vm_compute; reflexivity. Qed.

(** ** C5, C6 and C7 on runs *)

Lemma protected_never_removed_witness :
  "old.jpg"%string ∈ ({[ "old.jpg"%string ]} : gset string)
  /\ fs (snd (enforce_limits (settings 1 0 0) "./wallpapers"
                {[ "old.jpg"%string ]} (start two_files))) !! "old.jpg"%string
     = fs (start two_files) !! "old.jpg"%string.
Proof.
  split; [by apply elem_of_singleton|].
  apply (protected_never_removed (settings 1 0 0) "./wallpapers"
           {[ "old.jpg"%string ]} (start two_files) "old.jpg").
  by apply elem_of_singleton.
Defined.

(** Protection holds while the count limit stays violated. *)
Example protection_outweighs_limit :
  let w' := snd (enforce_limits (settings 1 0 0) "./wallpapers"
                   {[ "old.jpg"%string; "new.jpg"%string ]} (start two_files)) in
  fs w' = two_files /\ MAX_IMAGES (settings 1 0 0) < Z.of_nat (size (fs w')).
Proof. split; vm_compute; reflexivity. Qed.



Example count_limit_on_three_files :
  fs (snd (enforce_limits (settings 1 0 0) "./wallpapers" ∅
             (start (three_files false))))
  = {[ "c.jpg"%string := file 3 [Byte.x03; Byte.x03; Byte.x03] false ]}.
Proof. vm_compute. reflexivity. Qed.

(** Two files of the same age: which one the count limit evicts follows
    the order of the listing, the sort being stable. *)
Definition twins : gmap string node :=
  {[ "left.jpg"%string := file 5 [Byte.x01] false;
     "right.jpg"%string := file 5 [Byte.x02] false ]}.

Definition listed_by (seed : list nat) (f : gmap string node) : world :=
  {| fs := f; clock := 1000; rng := []; stdout := []; listing_seed := seed |}.

Example listing_order_settles_ties :
  let survivors seed :=
    elements (dom (fs (snd (enforce_limits (settings 1 0 0) "./wallpapers" ∅
                              (listed_by seed twins))))) in
  listing (listed_by [] twins) = rev (listing (listed_by [1%nat] twins))
  /\ survivors [] = ["left.jpg"]%string
  /\ survivors [1%nat] = ["right.jpg"]%string.
Proof. repeat split; vm_compute; reflexivity. Qed.

(** A budget of four bytes: [MAX_LOCAL_GB = 4 / 2^30]. *)
Definition four_bytes : Q := 4 # (2 ^ 30).


(** Six bytes against a budget of four: the one-byte file goes (five
    are left, still too many), then the two-byte file (three are left),
    and the newest file stays. *)
Example size_limit_on_three_files :
  let w' := snd (enforce_limits (settings 0 four_bytes 0) "./wallpapers" ∅
                   (start (three_files false))) in
  fs w' = {[ "c.jpg"%string := file 3 [Byte.x03; Byte.x03; Byte.x03] false ]}
  /\ stdout w' = [LogMaxSizeExceeded 6 "a.jpg"; LogMaxSizeExceeded 5 "b.jpg";
                  LogCleanupComplete 2].
Proof. split; vm_compute; reflexivity. Qed.

(** ** C9 and C10 on runs *)


(** The composition itself, on the small Pillow. *)
Example letterbox_on_toy :
  exists w',
    letterbox [Byte.x64; Byte.x64] "200x100" "sunset-1.jpg" 200 100 (start ∅)
    = (Ok [Byte.xc8; Byte.x64], w')
    /\ Toy.cut (Toy.Blurred (Toy.Resized (Toy.Decoded 100 100 []) 200 200 BICUBIC) 20)
         (PyFloat.of_Z 0, PyFloat.of_Z 50, PyFloat.of_Z 200, PyFloat.of_Z 150)
       = inr (Toy.Cropped
                (Toy.Blurred (Toy.Resized (Toy.Decoded 100 100 []) 200 200 BICUBIC) 20)
                0 50 200 150).
Proof. eexists. split; vm_compute; reflexivity. Qed.

Lemma hidden_files_survive_purge_witness :
  let w := start {[ ".cache"%string := file 1 [] false;
                    "stray.jpg"%string := file 2 [] false ]} in
  Py.startswith ".cache" "." = true
  /\ exists w' lines,
       purge_orphans (settings 0 0 0) ["1"; "2"]%string
         [".cache"; "stray.jpg"]%string w = (Ok tt, w')
       /\ fs w' !! ".cache"%string = fs w !! ".cache"%string
       /\ stdout w' = stdout w ++ lines
       /\ LogRemovingOrphan ".cache" ∉ lines.
Proof.
  intros w. split; [reflexivity|].
  apply (hidden_files_survive_purge (settings 0 0 0) ["1"; "2"]%string
           [".cache"; "stray.jpg"]%string w ".cache").
  reflexivity.
Defined.

Example purge_removes_the_stray_file :
  fs (snd (purge_orphans (settings 0 0 0) ["1"; "2"]%string
             [".cache"; "stray.jpg"; "sunset-1.jpg"]%string
             (start {[ ".cache"%string := file 1 [] false;
                       "stray.jpg"%string := file 2 [] false;
                       "sunset-1.jpg"%string := file 3 [] false ]})))
  = {[ ".cache"%string := file 1 [] false;
       "sunset-1.jpg"%string := file 3 [] false ]}.
Proof. vm_compute. reflexivity. Qed.

(** ** The further properties on runs *)

(** The settings of a start with nothing but [API_KEY] in the
    environment. *)
Definition defaults : config :=
  {| IMMICH_URL := "http://192.168.1.100:2283"; API_KEY := "secret";
     ALBUM_IDS := []; ALBUMS_FAVORITES := true;
     DOWNLOAD_PATH := "./wallpapers"; SYNC_INTERVAL := 600;
     RANDOM_SELECT := 0; MAX_IMAGES := 0; MAX_LOCAL_GB := 0;
     TARGET_SIZE := "" |}.

Definition portrait : asset :=
  {| id := "3"; originalFileName := Some "portrait.png"%string;
     isFavorite := true |}.

(** A server whose album holds a favourite and two other assets. *)
Definition gallery : network := fun url _ =>
  if String.eqb url "http://immich/api/albums/alb"
  then Response 200 "" [] (Some [portrait; sunset; harbour])
  else if String.eqb url "http://immich/api/assets/3/original"
  then Response 200 "" [Byte.x09] None
  else online url "key".

Definition kept_apart : gmap string node :=
  {[ ".keep"%string := file 1 [] false;
     "locked.jpg"%string := file 2 [Byte.x01] true ]}.

Lemma orphans_do_not_outlive_a_turn_witness :
  fst (get_assets (settings 0 0 0) online (start two_files))
  = Ok ([("1", sunset); ("2", harbour)]%string, false)
  /\ Py.startswith "old.jpg" "." = false
  /\ removable (fs (start two_files)) "old.jpg" = true
  /\ fs (snd (sync_cycle (settings 0 0 0) online (start two_files)))
       !! "old.jpg"%string = None.
Proof.
  split; [vm_compute; reflexivity|]. split; [reflexivity|].
  split; [vm_compute; reflexivity|].
  apply (orphans_do_not_outlive_a_turn (settings 0 0 0) online (start two_files)
           [("1", sunset); ("2", harbour)]%string "old.jpg").
  - vm_compute. reflexivity.
  - reflexivity.
  - apply Forall_forall. repeat constructor.
  - vm_compute. reflexivity.
Defined.

Lemma no_album_empties_the_directory_witness :
  ALBUM_IDS defaults = []
  /\ exists w',
       sync_cycle defaults offline (start two_files) = (Ok 0, w')
       /\ (forall name, Py.startswith name "." = false ->
             removable (fs (start two_files)) name = true ->
             fs w' !! name = None)
       /\ (forall name, Py.startswith name "." = true ->
             fs w' !! name = fs (start two_files) !! name).
Proof.
  split; [reflexivity|].
  apply (no_album_empties_the_directory defaults offline (start two_files)).
  reflexivity.
Defined.

Example no_album_on_two_files :
  fs (snd (sync_cycle defaults offline (start two_files))) = ∅.
Proof. vm_compute. reflexivity. Qed.

Lemma id_in_name_survives_purge_witness :
  let w := start {[ "notes-1.txt"%string := file 1 [] false ]} in
  "1"%string ∈ ["1"; "2"]%string
  /\ Py.contains "1" "notes-1.txt" = true
  /\ exists w' lines,
       purge_orphans (settings 0 0 0) ["1"; "2"]%string
         ["notes-1.txt"]%string w = (Ok tt, w')
       /\ fs w' !! "notes-1.txt"%string = fs w !! "notes-1.txt"%string
       /\ stdout w' = stdout w ++ lines
       /\ LogRemovingOrphan "notes-1.txt" ∉ lines.
Proof.
  intros w. split; [apply list_elem_of_here|]. split; [reflexivity|].
  apply (id_in_name_survives_purge (settings 0 0 0) ["1"; "2"]%string
           ["notes-1.txt"]%string w "notes-1.txt" "1").
  - apply list_elem_of_here.
  - reflexivity.
Defined.

Definition nested : asset :=
  {| id := "9"; originalFileName := Some "a/b.c/d.jpg"%string;
     isFavorite := false |}.

Lemma get_filename_single_component_witness :
  no_slash (id nested) = true /\ no_slash (get_filename nested) = true.
Proof.
  split; [reflexivity|].
  apply (get_filename_single_component nested). reflexivity.
Defined.

Example get_filename_nested : get_filename nested = "abcd-9.jpg"%string.
Proof. reflexivity. Qed.

Lemma failed_download_writes_nothing_witness :
  fs (start ∅) !! get_filename sunset = None
  /\ downloadable (settings 0 0 0) offline sunset = false
  /\ exists line,
       download_asset (settings 0 0 0) offline sunset "./wallpapers" (start ∅)
       = (Ok false,
          {| fs := fs (start ∅); clock := clock (start ∅); rng := rng (start ∅);
             stdout := stdout (start ∅)
                       ++ [LogDownloading (get_filename sunset); line];
             listing_seed := listing_seed (start ∅) |})
       /\ line = match offline (download_url (settings 0 0 0) sunset)
                         (API_KEY (settings 0 0 0)) with
                 | Response c _ _ _ => LogDownloadFailed (id sunset) c
                 | TransportError => LogDownloadError (id sunset) ConnectionError
                 end.
Proof.
  split; [vm_compute; reflexivity|]. split; [reflexivity|].
  apply (failed_download_writes_nothing (settings 0 0 0) offline sunset
           "./wallpapers" (start ∅)).
  - vm_compute. reflexivity.
  - reflexivity.
Defined.





(** With room for one unprotected file, the older of the two others
    goes and the favourite stays. *)
Example favourite_outlives_the_limit :
  elements (dom (fs (snd (sync_cycle (settings 1 0 0) gallery (start ∅)))))
  ≡ₚ ["portrait-3.png"; "harbour-2.jpg"]%string
  \/ elements (dom (fs (snd (sync_cycle (settings 1 0 0) gallery (start ∅)))))
     ≡ₚ ["portrait-3.png"; "sunset-1.jpg"]%string.
Proof.
  apply (bool_decide_unpack _). vm_compute. exact I.
Qed.

Lemma retention_spares_non_candidates_witness :
  let w := start (three_files true) in
  fs w !! "a.jpg"%string = Some (file 1 [Byte.x01] true)
  /\ locked (file 1 [Byte.x01] true) = true
  /\ fs (snd (enforce_limits (settings 1 0 0) "./wallpapers" ∅ w))
       !! "a.jpg"%string = Some (file 1 [Byte.x01] true).
Proof.
  intros w. split; [vm_compute; reflexivity|]. split; [reflexivity|].
  apply (retention_spares_non_candidates (settings 1 0 0) "./wallpapers" ∅ w
           "a.jpg" (file 1 [Byte.x01] true)).
  - vm_compute. reflexivity.
  - right. right. reflexivity.
Defined.

Lemma retention_restores_limits_witness :
  let cfg := settings 1 four_bytes 0 in
  let w := start (three_files false) in
  map_Forall (fun _ n => locked n = false) (fs w)
  /\ exists w',
       enforce_limits cfg "./wallpapers" ∅ w = (Ok tt, w')
       /\ limits_respected cfg "./wallpapers" ∅ (fs w')
       /\ forall w2, fs w2 = fs w' ->
            fs (snd (enforce_limits cfg "./wallpapers" ∅ w2)) = fs w'.
Proof.
  intros cfg w.
  assert (H : map_Forall (fun _ n => locked n = false) (fs w)).
  { apply (bool_decide_unpack _). vm_compute. exact I. }
  split; [exact H|].
  apply (retention_restores_limits cfg "./wallpapers" ∅ w).
  intros name n Hn _. exact (H name n Hn).
Defined.

Lemma retention_within_limits_is_silent_witness :
  let cfg := settings 5 1 0 in
  limits_respected cfg "./wallpapers" ∅ (fs (start two_files))
  /\ enforce_limits cfg "./wallpapers" ∅ (start two_files)
     = (Ok tt, start two_files).
Proof.
  intros cfg.
  assert (H : limits_respected cfg "./wallpapers" ∅ (fs (start two_files))).
  { split; intros _; vm_compute; discriminate. }
  split; [exact H|].
  apply (retention_within_limits_is_silent cfg "./wallpapers" ∅ (start two_files)).
  exact H.
Defined.


Definition untidy : gmap string string :=
  {[ "IMMICH_URL"%string := "http://immich//"%string;
     "ALBUM_IDS"%string := " alb, ,two,"%string;
     "ALBUMS_FAVORITES"%string := "TRUE"%string ]}.

Definition tidied : config :=
  {| IMMICH_URL := "http://immich"; API_KEY := "";
     ALBUM_IDS := ["alb"; "two"]; ALBUMS_FAVORITES := true;
     DOWNLOAD_PATH := "./wallpapers"; SYNC_INTERVAL := 600;
     RANDOM_SELECT := 0; MAX_IMAGES := 0; MAX_LOCAL_GB := 0;
     TARGET_SIZE := "" |}.

Lemma load_config_normalizes_witness :
  load_config no_float untidy = Ok tidied
  /\ last_char (IMMICH_URL tidied) <> Some "/"%char
  /\ Forall (fun album => album <> EmptyString) (ALBUM_IDS tidied)
  /\ (getenv untidy "ALBUM_IDS" "" = EmptyString -> ALBUM_IDS tidied = [])
  /\ (ALBUMS_FAVORITES tidied = true <->
      Py.lower (getenv untidy "ALBUMS_FAVORITES" "True") = "true"%string).
Proof.
  split; [vm_compute; reflexivity|].
  apply (load_config_normalizes no_float untidy tidied).
  vm_compute. reflexivity.
Defined.


Lemma turn_spares_hidden_and_unremovable_witness :
  let w := start kept_apart in
  let w' := snd (sync_cycle (settings 1 0 0) online w) in
  fs w !! "locked.jpg"%string = Some (file 2 [Byte.x01] true)
  /\ (Py.startswith "locked.jpg" "." = true ->
      fs w' !! "locked.jpg"%string = Some (file 2 [Byte.x01] true))
  /\ (removable (fs w) "locked.jpg" = false ->
      exists n', fs w' !! "locked.jpg"%string = Some n'
                 /\ same_modulo_mtime (file 2 [Byte.x01] true) n').
Proof.
  intros w w'. split; [vm_compute; reflexivity|].
  apply (turn_spares_hidden_and_unremovable (settings 1 0 0) online w
           "locked.jpg" (file 2 [Byte.x01] true)).
  vm_compute. reflexivity.
Defined.

Lemma turn_writes_derived_files_only_witness :
  let cfg := settings 0 0 0 in
  let w := start kept_apart in
  Forall (fun a => ".keep"%string <> get_filename a)
    (values (fst (catalog cfg online)))
  /\ fs (snd (sync_cycle cfg online w)) !! ".keep"%string = Some (file 1 [] false)
  /\ fs w !! ".keep"%string = Some (file 1 [] false).
Proof.
  intros cfg w.
  assert (H : Forall (fun a => ".keep"%string <> get_filename a)
                (values (fst (catalog cfg online)))).
  { change (values (fst (catalog cfg online))) with [sunset; harbour].
    repeat constructor; intros Heq; vm_compute in Heq; discriminate. }
  split; [exact H|]. split; [vm_compute; reflexivity|].
  apply (turn_writes_derived_files_only cfg online w ".keep" (file 1 [] false)).
  - apply Forall_forall. exact H.
  - vm_compute. reflexivity.
Defined.


Example mirror_of_two_assets :
  fs (snd (sync_cycle (settings 0 0 0) online (start two_files)))
  = {[ "sunset-1.jpg"%string := file 1000 [Byte.x01; Byte.x02] false;
       "harbour-2.jpg"%string := file 1000 [Byte.x03] false ]}.
Proof. vm_compute. reflexivity. Qed.
